(** * Imputation subsystem of the HR cleaning pipeline (src/imputation.py)

    A shallow embedding of [imputar_categoricas] and [imputar_numericas]
    together with the part of the dataframe library they rely on.

    Conventions of the embedding
    - a dataframe is an ordered list of named columns plus its row count;
      its columns are of the dtypes the pipeline produces: [object],
      [float64], [int64] and the nullable [Int64];
    - a cell is [None] when missing (NaN / None / NA) and [Some v] otherwise;
    - numbers are exact rationals ([Q]); the thresholds 0.05, 0.20, ... are
      the rationals they denote.  Rounding effects of binary floating point
      are outside the model;
    - [print] is modelled by appending a diagnostic event to an output log;
    - a raised exception is a result of its own, carrying the state reached
      when it was raised (the dataframe is mutated in place). *)

From Stdlib Require Import String Ascii List ZArith QArith Qround Qreduction Qfield Bool Arith Lia.
Import ListNotations.

Local Open Scope string_scope.
Local Open Scope list_scope.
Local Open Scope Q_scope.

(* ------------------------------------------------------------------------ *)
(** ** Cells, columns, dataframes *)

(** A present value of an object column: text, or a number. *)
Inductive value : Type :=
| VStr (s : string)
| VNum (q : Q).

Definition cell : Type := option value.

(** Numeric dtypes: [float64], numpy [int64] and the nullable [Int64]. *)
Inductive NumDtype : Type := DFloat64 | DInt64 | DInt64Nullable.

(** A column is either numeric (it is selected by
    [select_dtypes(include=[np.number])]) or of dtype [object]. *)
Inductive Column : Type :=
| ColNum (dt : NumDtype) (xs : list (option Q))
| ColObj (xs : list cell).

Record DataFrame : Type := mkDF {
  nrows : nat;                          (* len(df) *)
  columns : list (string * Column)      (* df.columns with their data, in order *)
}.

Definition col_cells (c : Column) : list cell :=
  match c with
  | ColNum _ xs => map (option_map VNum) xs
  | ColObj xs => xs
  end.

Definition col_len (c : Column) : nat :=
  match c with
  | ColNum _ xs => length xs
  | ColObj xs => length xs
  end.

Definition is_numeric (c : Column) : bool :=
  match c with ColNum _ _ => true | ColObj _ => false end.

(** [pd.api.types.is_integer_dtype] *)
Definition is_integer_dtype (c : Column) : bool :=
  match c with
  | ColNum DInt64 _ | ColNum DInt64Nullable _ => true
  | _ => false
  end.

Definition col_names (df : DataFrame) : list string := map fst (columns df).

(** [df[col]] for one label *)
Fixpoint assoc_get (l : list (string * Column)) (col : string) : option Column :=
  match l with
  | [] => None
  | (n, c) :: l' => if String.eqb n col then Some c else assoc_get l' col
  end.

Definition df_get (df : DataFrame) (col : string) : option Column :=
  assoc_get (columns df) col.

(** [col in df.columns] *)
Definition has_col (df : DataFrame) (col : string) : bool :=
  match df_get df col with Some _ => true | None => false end.

(** [df[col] = c]: an existing column is replaced where it stands, a new
    label is appended after the last column. *)
Fixpoint assoc_set (l : list (string * Column)) (col : string) (c : Column)
  : list (string * Column) :=
  match l with
  | [] => [(col, c)]
  | (n, c0) :: l' =>
      if String.eqb n col then (n, c) :: l' else (n, c0) :: assoc_set l' col c
  end.

Definition df_set (df : DataFrame) (col : string) (c : Column) : DataFrame :=
  mkDF (nrows df) (assoc_set (columns df) col c).

(** Well-formed frames: labels are unique and every column has [nrows] cells. *)
Definition wf_df (df : DataFrame) : Prop :=
  NoDup (col_names df) /\
  Forall (fun nc => col_len (snd nc) = nrows df) (columns df).

(* ------------------------------------------------------------------------ *)
(** ** Series helpers: isnull, fillna, value_counts, mode *)

Definition isnull {A} (c : option A) : bool :=
  match c with None => true | Some _ => false end.

(** [s.isnull().sum()] *)
Definition count_null {A} (cs : list (option A)) : nat :=
  length (filter isnull cs).

Definition fill {A} (v : A) (cs : list (option A)) : list (option A) :=
  map (fun c => match c with None => Some v | Some x => Some x end) cs.

(** [s.fillna(v)]: a series without missing cells is returned as it is;
    text written into a numeric series turns it into an object series (the
    pipeline hands only object columns to the categorical imputer; pandas
    would refuse text for a nullable integer series with gaps). *)
Definition fillna (c : Column) (v : value) : Column :=
  match c with
  | ColObj xs => ColObj (fill v xs)
  | ColNum dt xs =>
      if (count_null xs =? 0)%nat then c
      else match v with
           | VNum q => ColNum dt (fill q xs)
           | VStr _ => ColObj (fill v (map (option_map VNum) xs))
           end
  end.

Definition value_eqb (a b : value) : bool :=
  match a, b with
  | VStr s, VStr t => String.eqb s t
  | VNum p, VNum q => Qeq_bool p q
  | _, _ => false
  end.

(** Order used when the modes are sorted: text by code point, numbers by
    magnitude. *)
Definition value_leb (a b : value) : bool :=
  match a, b with
  | VStr s, VStr t => String.leb s t
  | VNum p, VNum q => Qle_bool p q
  | VNum _, VStr _ => true
  | VStr _, VNum _ => false
  end.

Definition same_kind (a b : value) : bool :=
  match a, b with
  | VStr _, VStr _ | VNum _, VNum _ => true
  | _, _ => false
  end.

(** Present values of a series, in row order ([dropna]). *)
Fixpoint present {A} (cs : list (option A)) : list A :=
  match cs with
  | [] => []
  | Some v :: cs' => v :: present cs'
  | None :: cs' => present cs'
  end.

Definition count_val (v : value) (vs : list value) : nat :=
  length (filter (value_eqb v) vs).

(** Distinct values in order of first appearance. *)
Fixpoint distinct (vs : list value) : list value :=
  match vs with
  | [] => []
  | v :: vs' => v :: filter (fun w => negb (value_eqb v w)) (distinct vs')
  end.

(** Stable insertion by decreasing count. *)
Fixpoint insert_desc (x : value * nat) (l : list (value * nat)) : list (value * nat) :=
  match l with
  | [] => [x]
  | y :: l' => if (snd x <? snd y)%nat then y :: insert_desc x l' else x :: y :: l'
  end.

Definition sort_desc (l : list (value * nat)) : list (value * nat) :=
  fold_right insert_desc [] l.

(** [s.value_counts(dropna=True)]: one entry per distinct present value,
    most frequent first. *)
Definition value_counts (cs : list cell) : list (value * nat) :=
  let vs := present cs in
  sort_desc (map (fun v => (v, count_val v vs)) (distinct vs)).

Fixpoint max_count (l : list (value * nat)) : nat :=
  match l with
  | [] => 0%nat
  | (_, n) :: l' => Nat.max n (max_count l')
  end.

Fixpoint min_value (v : value) (vs : list value) : value :=
  match vs with
  | [] => v
  | w :: vs' => min_value (if value_leb v w then v else w) vs'
  end.

(** [s.mode(dropna=True)]: the values of highest count; they come sorted
    when they can be compared with one another, and in order of appearance
    otherwise.  Only the first entry matters to the imputer. *)
Definition modes (cs : list cell) : list value :=
  let vs := present cs in
  let counted := map (fun v => (v, count_val v vs)) (distinct vs) in
  let top := max_count counted in
  let ms := map fst (filter (fun vn => (snd vn =? top)%nat) counted) in
  match ms with
  | [] => []
  | m :: ms' =>
      if forallb (same_kind m) ms' then
        let least := min_value m ms' in
        least :: filter (fun w => negb (value_eqb least w)) ms
      else ms
  end.

(* ------------------------------------------------------------------------ *)
(** ** Diagnostic output *)

(** One constructor per [print] of the module; the arguments are the values
    interpolated into the message. *)
Inductive Msg : Type :=
| MsgAnalizando (col : string)
| MsgNoExiste (col : string)
| MsgNulos (nulos total : nat) (porcentaje : Q)
| MsgNulosAlto (umbral : Q) (etiqueta : string)
| MsgSinValores (etiqueta : string)
| MsgModa (v : value) (pct : Q)
| MsgSegunda (v : option value) (pct : Q)
| MsgVentaja (ventaja : Q)
| MsgNumNoExiste (col : string)
| MsgNumSinValidas
| MsgNumAnalizando (col : string).

Definition State : Type := (DataFrame * list Msg)%type.

(** [a / b] on row counts *)
Definition ratio (a b : nat) : Q :=
  inject_Z (Z.of_nat a) / inject_Z (Z.of_nat b).

Definition Qgt_bool (a b : Q) : bool := negb (Qle_bool a b).

(** [nulos / total if total > 0 else 0] *)
Definition porcentaje (nulos total : nat) : Q :=
  if (0 <? total)%nat then ratio nulos total else 0.

(* ------------------------------------------------------------------------ *)
(** ** imputar_categoricas *)

Section ImputarCategoricas.

Variables umbral_nulos_alto umbral_nulos_bajo : Q.
Variables umbral_moda_bajo umbral_moda_medio umbral_ventaja : Q.
Variable etiqueta_unknown : string.

(** Body of the loop [for col in columnas].  The shares are taken only
    when the column has a present value, hence a row: [total] is positive
    wherever [primero / total] is evaluated on a well-formed frame. *)
Definition imputar_categoricas_col (total : nat) (st : State) (col : string) : State :=
  let '(df, out) := st in
  let out := out ++ [MsgAnalizando col] in
  match df_get df col with
  | None => (df, out ++ [MsgNoExiste col])
  | Some c =>
      let nulos := count_null (col_cells c) in
      let porcentaje_nulos := porcentaje nulos total in
      let out := out ++ [MsgNulos nulos total porcentaje_nulos] in
      if Qgt_bool porcentaje_nulos umbral_nulos_alto then
        (df_set df col (fillna c (VStr etiqueta_unknown)),
         out ++ [MsgNulosAlto umbral_nulos_alto etiqueta_unknown])
      else
        let valores := value_counts (col_cells c) in
        match valores with
        | [] =>
            (df_set df col (fillna c (VStr etiqueta_unknown)),
             out ++ [MsgSinValores etiqueta_unknown])
        | (v1, primero) :: resto =>
            let pct_primero := ratio primero total in
            let pct_segundo :=
              match resto with
              | (_, segundo) :: _ => ratio segundo total
              | [] => 0
              end in
            let ventaja := pct_primero - pct_segundo in
            let out := out ++ [MsgModa v1 pct_primero;
                               MsgSegunda (option_map fst (hd_error resto)) pct_segundo;
                               MsgVentaja ventaja] in
            let umbral_moda :=
              if Qle_bool porcentaje_nulos umbral_nulos_bajo
              then umbral_moda_bajo else umbral_moda_medio in
            if Qle_bool umbral_moda pct_primero && Qle_bool umbral_ventaja ventaja then
              let moda := hd v1 (modes (col_cells c)) in
              (df_set df col (fillna c moda), out)
            else
              (df_set df col (fillna c (VStr etiqueta_unknown)), out)
        end
  end.

Definition imputar_categoricas (df : DataFrame) (columnas : list string) : State :=
  let total := nrows df in
  fold_left (imputar_categoricas_col total) columnas (df, []).

End ImputarCategoricas.

(** The call with the defaults of the signature. *)
Definition imputar_categoricas_default (df : DataFrame) (columnas : list string) : State :=
  imputar_categoricas (20 # 100) (5 # 100) (50 # 100) (60 # 100) (20 # 100)
                      "Unknown" df columnas.

(* ------------------------------------------------------------------------ *)
(** ** Numeric helpers: median, standardisation, nearest neighbours *)

Inductive Exn : Type := KeyError | ValueError.

(** Outcome of a call: it returns, or it raises with the dataframe and the
    output as they were at that moment. *)
Inductive Result : Type :=
| Ok (st : State)
| Raise (e : Exn) (st : State).

Definition Qsum (l : list Q) : Q := fold_right Qplus 0 l.

Definition Qnat (n : nat) : Q := inject_Z (Z.of_nat n).

Fixpoint insert_asc (x : Q) (l : list Q) : list Q :=
  match l with
  | [] => [x]
  | y :: l' => if Qle_bool x y then x :: y :: l' else y :: insert_asc x l'
  end.

Definition sort_asc (l : list Q) : list Q := fold_right insert_asc [] l.

(** Median of the present values (mean of the two middle ones for an even
    count). *)
Definition median (xs : list (option Q)) : Q :=
  let s := sort_asc (present xs) in
  let n := length s in
  if Nat.odd n then nth (n / 2) s 0
  else Qred ((nth (n / 2 - 1) s 0 + nth (n / 2) s 0) / 2).

(** [SimpleImputer(strategy="median").fit_transform(df[[col]])] followed by
    the assignment to [df[[col]]].  The imputer refuses an input without
    rows, and it drops a feature without any observed value, so that the
    assignment of the narrower array fails. *)
Definition mediana_fit_transform (xs : list (option Q)) : option (list (option Q)) :=
  match xs with
  | [] => None
  | _ => match present xs with
         | [] => None
         | _ => Some (fill (median xs) xs)
         end
  end.

(** Square root: exact on squares of rationals, truncated to 2^-60 times
    the denominator elsewhere. *)
Definition Qsqrt (q : Q) : Q :=
  let r := Qred q in
  let n := Qnum r in
  let d := Zpos (Qden r) in
  if (n <=? 0)%Z then 0
  else
    let sn := Z.sqrt n in
    let sd := Z.sqrt d in
    if ((sn * sn =? n) && (sd * sd =? d))%Z then Qred (sn # Z.to_pos sd)
    else Qred (Z.sqrt (n * d * 2 ^ 120) # Z.to_pos (d * 2 ^ 60)).

Definition nanmean (xs : list (option Q)) : Q :=
  Qsum (present xs) / Qnat (length (present xs)).

Definition nanvar (xs : list (option Q)) : Q :=
  let m := nanmean xs in
  Qsum (map (fun x => (x - m) * (x - m)) (present xs)) / Qnat (length (present xs)).

(** [StandardScaler]: [mean_] and [scale_] of a feature; a feature without
    spread is left at scale 1. *)
Definition scaler_mean (xs : list (option Q)) : Q := nanmean xs.

Definition scaler_scale (xs : list (option Q)) : Q :=
  let v := nanvar xs in
  if Qeq_bool v 0 then 1 else Qsqrt v.

Definition scaler_transform (xs : list (option Q)) : list (option Q) :=
  let m := scaler_mean xs in
  let s := scaler_scale xs in
  map (option_map (fun x => (x - m) / s)) xs.

(** Row [i] of a table given by its columns. *)
Definition row_of (X : list (list (option Q))) (i : nat) : list (option Q) :=
  map (fun col => nth i col None) X.

(** Sum of squared differences over the coordinates present in both rows,
    with the number of such coordinates. *)
Fixpoint nan_sqdist (r s : list (option Q)) : Q * nat :=
  match r, s with
  | Some a :: r', Some b :: s' =>
      let '(q, n) := nan_sqdist r' s' in ((a - b) * (a - b) + q, S n)
  | _ :: r', _ :: s' => nan_sqdist r' s'
  | _, _ => (0, 0%nat)
  end.

(** [nan_euclidean_distances]: undefined ([None], NaN) when the rows share
    no present coordinate. *)
Definition nan_euclidean (r s : list (option Q)) : option Q :=
  let '(q, n) := nan_sqdist r s in
  if (n =? 0)%nat then None
  else Some (Qsqrt (Qnat (length r) / Qnat n * q)).

(** Order of the distances, NaN last. *)
Definition dist_leb (a b : option Q) : bool :=
  match a, b with
  | Some x, Some y => Qle_bool x y
  | Some _, None => true
  | None, Some _ => false
  | None, None => true
  end.

(** A candidate donor: its row and its distance to the receiver. *)
Definition Donor : Type := (nat * option Q)%type.

Fixpoint insert_dist (x : Donor) (l : list Donor) : list Donor :=
  match l with
  | [] => [x]
  | y :: l' => if dist_leb (snd x) (snd y) then x :: y :: l' else y :: insert_dist x l'
  end.

(** Rows by increasing distance; rows at equal distance stay in row order
    (numpy leaves their order open). *)
Definition sort_dist (l : list Donor) : list Donor :=
  fold_right insert_dist [] l.

(** [potential_donors_idx]: the rows where the feature is present. *)
Definition potential_donors (feat : list (option Q)) : list nat :=
  filter (fun s => negb (isnull (nth s feat None))) (seq 0 (length feat)).

(** Distance of row [i] to row [s] of the table. *)
Definition dist_row (X : list (list (option Q))) (i s : nat) : option Q :=
  nan_euclidean (row_of X i) (row_of X s).

(** The value of a feature at a row, 0 where it is masked. *)
Definition feat_at (feat : list (option Q)) (s : nat) : Q :=
  match nth s feat None with Some z => z | None => 0 end.

(** Uniform weights: 1 for a donor at a defined distance, 0 otherwise. *)
Definition weight_uniform (d : option Q) : Q :=
  match d with Some _ => 1 | None => 0 end.

(** Weighted average of the feature over the selected donors. *)
Definition weighted_average (w : option Q -> Q) (feat : list (option Q))
           (sel : list Donor) : Q :=
  Qsum (map (fun sd => w (snd sd) * feat_at feat (fst sd)) sel)
  / Qsum (map (fun sd => w (snd sd)) sel).

(** The donors retained for the receiver row [i]: the
    [min k (number of potential donors)] nearest ones. *)
Definition nearest_donors (k : nat) (X : list (list (option Q)))
           (feat : list (option Q)) (i : nat) : list Donor :=
  let cands := map (fun s => (s, dist_row X i s)) (potential_donors feat) in
  let n_neighbors := Nat.min k (length cands) in
  firstn n_neighbors (sort_dist cands).

(** [KNNImputer(n_neighbors=k)] for one receiver: the average of the
    feature over the retained donors with the weights [w]; the feature's
    mean when no potential donor is at a defined distance. *)
Definition knn_value (w : option Q -> Q) (k : nat) (X : list (list (option Q)))
           (feat : list (option Q)) (i : nat) : Q :=
  if forallb (fun s => isnull (dist_row X i s)) (potential_donors feat)
  then nanmean feat
  else weighted_average w feat (nearest_donors k X feat i).

(** The imputed feature: present cells are kept, missing ones receive
    [knn_value]. *)
Definition knn_feature (w : option Q -> Q) (k : nat) (X : list (list (option Q)))
           (feat : list (option Q)) : list Q :=
  map (fun i => match nth i feat None with
                | Some z => z
                | None => knn_value w k X feat i
                end)
      (seq 0 (length feat)).

(** [scaler.inverse_transform] on one feature. *)
Definition scaler_inverse (m s : Q) (zs : list Q) : list Q :=
  map (fun z => Qred (z * s + m)) zs.

(** [round()] to the nearest integer, halves to the even neighbour. *)
Definition round_half_even (q : Q) : Z :=
  let f := Qfloor q in
  match Qcompare (q - inject_Z f) (1 # 2) with
  | Lt => f
  | Gt => (f + 1)%Z
  | Eq => if Z.even f then f else (f + 1)%Z
  end.

(* ------------------------------------------------------------------------ *)
(** ** imputar_numericas *)

(** [df.select_dtypes(include=[np.number]).columns.tolist()] *)
Definition select_numeric (df : DataFrame) : list string :=
  map fst (filter (fun nc => is_numeric (snd nc)) (columns df)).

(** The numeric data of a column, when it has some. *)
Definition num_cells (df : DataFrame) (col : string) : option (list (option Q)) :=
  match df_get df col with
  | Some (ColNum _ xs) => Some xs
  | _ => None
  end.

(** [df[cols]] as a numeric table, [None] when a label is not a numeric column. *)
Fixpoint num_table (df : DataFrame) (cols : list string) : option (list (list (option Q))) :=
  match cols with
  | [] => Some []
  | c :: cols' =>
      match num_cells df c, num_table df cols' with
      | Some xs, Some X => Some (xs :: X)
      | _, _ => None
      end
  end.

(** [df[col].isnull().astype(int)] *)
Definition indicador_missing (c : Column) : Column :=
  ColNum DInt64 (map (fun x => Some (if isnull x then 1 else 0)) (col_cells c)).

(** [df[col].round().astype("Int64")] *)
Definition round_Int64 (xs : list (option Q)) : Column :=
  ColNum DInt64Nullable (map (option_map (fun q => inject_Z (round_half_even q))) xs).

(** Loop over the columns with propagation of a raised exception. *)
Fixpoint for_each (body : State -> string -> Result) (cols : list string) (st : State)
  : Result :=
  match cols with
  | [] => Ok st
  | c :: cols' =>
      match body st c with
      | Ok st' => for_each body cols' st'
      | Raise e st' => Raise e st'
      end
  end.

Section ImputarNumericas.

Variables umbral_nulos_bajo umbral_nulos_alto : Q.
Variable n_neighbors : nat.
Variables crear_indicador_missing usar_knn_en_alto : bool.

(** [df[[col]] = imputer_mediana.fit_transform(df[[col]])] *)
Definition imputar_mediana (st : State) (col : string) : Result :=
  match num_cells (fst st) col with
  | None => Raise ValueError st
  | Some xs =>
      match mediana_fit_transform xs with
      | None => Raise ValueError st
      | Some ys => Ok (df_set (fst st) col (ColNum DFloat64 ys), snd st)
      end
  end.

(** The block [X = df[cols_num_contexto].copy() ... df[col] = X_imputed[col]].
    The scaler refuses a table without rows and the imputer a
    non-positive [n_neighbors]; a context feature without any observed
    value is dropped by the imputer, after which the shapes no longer
    agree and the block raises. *)
Definition imputar_knn (cols_num_contexto : list string) (st : State) (col : string)
  : Result :=
  match num_table (fst st) cols_num_contexto, num_cells (fst st) col with
  | Some X, Some xs =>
      if (nrows (fst st) =? 0)%nat then Raise ValueError st
      else if (n_neighbors =? 0)%nat then Raise ValueError st
      else if existsb (fun f => (length (present f) =? 0)%nat) X then Raise ValueError st
      else if negb (existsb (String.eqb col) cols_num_contexto) then Raise KeyError st
      else
        let X_scaled := map scaler_transform X in
        let feat := scaler_transform xs in
        let imputed := knn_feature weight_uniform n_neighbors X_scaled feat in
        let X_imputed_col := scaler_inverse (scaler_mean xs) (scaler_scale xs) imputed in
        Ok (df_set (fst st) col (ColNum DFloat64 (map Some X_imputed_col)), snd st)
  | _, _ => Raise ValueError st
  end.

(** Body of the loop [for col in columnas_validas]. *)
Definition imputar_numericas_col (total : nat) (cols_num_contexto : list string)
           (st : State) (col : string) : Result :=
  let '(df, out) := st in
  let out := out ++ [MsgNumAnalizando col] in
  match df_get df col with
  | None => Raise KeyError (df, out)
  | Some c =>
      let nulos := count_null (col_cells c) in
      let porcentaje_nulos := porcentaje nulos total in
      if Qle_bool porcentaje_nulos umbral_nulos_bajo then
        imputar_mediana (df, out) col
      else if Qle_bool porcentaje_nulos umbral_nulos_alto then
        imputar_knn cols_num_contexto (df, out) col
      else
        let df :=
          if crear_indicador_missing
          then df_set df (col ++ "_missing") (indicador_missing c)
          else df in
        if usar_knn_en_alto then imputar_knn cols_num_contexto (df, out) col
        else imputar_mediana (df, out) col
  end.

(** Body of the closing loop: a column that was of integer dtype at entry
    is rounded and cast to [Int64]. *)
Definition restaurar_entero (dtypes_originales : DataFrame) (df : DataFrame) (col : string)
  : DataFrame :=
  match df_get dtypes_originales col with
  | Some c0 =>
      if is_integer_dtype c0 then
        match num_cells df col with
        | Some xs => df_set df col (round_Int64 xs)
        | None => df
        end
      else df
  | None => df
  end.

Definition imputar_numericas (df : DataFrame) (columnas : list string) : Result :=
  let dtypes_originales := df in
  let total := nrows df in
  (* df[columnas] raises KeyError when a label is not a column *)
  if negb (forallb (has_col df) columnas) then Raise KeyError (df, [])
  else
    let columnas_validas :=
      filter (fun c => match df_get df c with
                       | Some c0 => is_numeric c0
                       | None => false
                       end) columnas in
    let columnas_no_encontradas := filter (fun c => negb (has_col df c)) columnas in
    let out := map MsgNumNoExiste columnas_no_encontradas in
    let cols_num_df := select_numeric df in
    let columnas_validas :=
      filter (fun c => existsb (String.eqb c) cols_num_df) columnas_validas in
    match columnas_validas with
    | [] => Ok (df, out ++ [MsgNumSinValidas])
    | _ =>
        let cols_num_contexto := cols_num_df in
        match for_each (imputar_numericas_col total cols_num_contexto)
                       columnas_validas (df, out) with
        | Raise e st => Raise e st
        | Ok (df', out') =>
            Ok (fold_left (restaurar_entero dtypes_originales) columnas_validas df', out')
        end
    end.

End ImputarNumericas.

(** The call as the pipeline makes it (the defaults of the signature). *)
Definition imputar_numericas_default (df : DataFrame) (columnas : list string) : Result :=
  imputar_numericas (5 # 100) (20 # 100) 5 true false df columnas.

(* ------------------------------------------------------------------------ *)
(** ** Vocabulary of the specification *)

(** The column exists and has no missing cell. *)
Definition sin_nulos (df : DataFrame) (col : string) : Prop :=
  exists c, df_get df col = Some c /\ count_null (col_cells c) = 0%nat.




(** What one pass of the categorical loop reports for a column of a frame
    without rows. *)
Definition diagnostico_sin_filas (etiqueta : string) (df : DataFrame) (col : string)
  : list Msg :=
  if has_col df col
  then [MsgAnalizando col; MsgNulos 0 0 0; MsgSinValores etiqueta]
  else [MsgAnalizando col; MsgNoExiste col].

(** The state in which a call ended, returned or raised. *)
Definition estado (r : Result) : State :=
  match r with Ok st => st | Raise _ st => st end.

(** [n] is the name of the indicator of one of the columns [cols]. *)
Definition indicador_de (cols : list string) (n : string) : Prop :=
  exists x, In x cols /\ n = (x ++ "_missing")%string.

(** [n] is a numeric column of the frame. *)
Definition es_numerica (df : DataFrame) (n : string) : Prop :=
  exists dt xs, df_get df n = Some (ColNum dt xs).

(** [df'] comes from [df] by assignments of numeric data to labels that
    satisfy [P]. *)
Inductive escrituras (P : string -> Prop) : DataFrame -> DataFrame -> Prop :=
| escrituras_refl df : escrituras P df df
| escrituras_set df df' n c :
    escrituras P df df' -> P n -> is_numeric c = true ->
    escrituras P df (df_set df' n c).

(** [columnas_validas]: the requested labels that are numeric columns. *)
Definition validas (df : DataFrame) (columnas : list string) : list string :=
  filter (fun c => existsb (String.eqb c) (select_numeric df))
         (filter (fun c => match df_get df c with
                           | Some c0 => is_numeric c0
                           | None => false
                           end) columnas).



(** The column is numeric and complete. *)
Definition numerica_completa (df : DataFrame) (col : string) : Prop :=
  exists dt ys, df_get df col = Some (ColNum dt ys) /\ count_null ys = 0%nat.






(** The column that the nearest-neighbour block writes. *)
Definition columna_knn (k : nat) (X : list (list (option Q))) (xs : list (option Q))
  : list Q :=
  scaler_inverse (scaler_mean xs) (scaler_scale xs)
    (knn_feature weight_uniform k (map scaler_transform X) (scaler_transform xs)).

(** *** The nearest-neighbour filling in the words of the specification

    "a distance-weighted average of that feature taken from the
    neighbor_count nearest complete rows in standardized space": the
    candidates are the rows without any missing cell, the [k] nearest are
    retained, and each weighs the inverse of its distance (a donor at
    distance 0 takes all the weight). *)

Definition fila_completa (X : list (list (option Q))) (s : nat) : bool :=
  forallb (fun f => negb (isnull (nth s f None))) X.

Definition dist_es_cero (sd : Donor) : bool :=
  match snd sd with Some d => Qeq_bool d 0 | None => false end.

Definition weights_distance (sel : list Donor) : list Q :=
  if existsb dist_es_cero sel
  then map (fun sd => if dist_es_cero sd then 1 else 0) sel
  else map (fun sd => match snd sd with Some d => / d | None => 0 end) sel.

Definition knn_value_spec (k : nat) (X : list (list (option Q)))
           (feat : list (option Q)) (i : nat) : Q :=
  let cands := map (fun s => (s, dist_row X i s))
                   (filter (fila_completa X) (seq 0 (length feat))) in
  let sel := firstn k (sort_dist cands) in
  let ws := weights_distance sel in
  Qsum (map (fun wsd => fst wsd * feat_at feat (fst (snd wsd))) (combine ws sel))
  / Qsum ws.

Definition columna_knn_spec (k : nat) (X : list (list (option Q))) (xs : list (option Q))
  : list Q :=
  let Xs := map scaler_transform X in
  let feat := scaler_transform xs in
  scaler_inverse (scaler_mean xs) (scaler_scale xs)
    (map (fun i => match nth i feat None with
                   | Some z => z
                   | None => knn_value_spec k Xs feat i
                   end)
         (seq 0 (length feat))).

(** [c'] is [c] with some of its missing cells filled. *)
Definition rellena (c c' : Column) : Prop :=
  length (col_cells c') = length (col_cells c) /\
  forall i v, nth i (col_cells c) None = Some v -> nth i (col_cells c') None = Some v.


(** [df'] has the labels of [df] in the same order, and each of its columns
    is the column of [df], with missing cells filled if its label
    satisfies [P]. *)
Definition solo_rellena (P : string -> Prop) (df df' : DataFrame) : Prop :=
  col_names df' = col_names df /\
  nrows df' = nrows df /\
  (forall n, ~ P n -> df_get df' n = df_get df n) /\
  (forall n c, df_get df n = Some c -> exists c', df_get df' n = Some c' /\ rellena c c').




(** The table of counts that [value_counts] sorts. *)
Definition counted (cs : list cell) : list (value * nat) :=
  map (fun v => (v, count_val v (present cs))) (distinct (present cs)).



(* ------------------------------------------------------------------------ *)
(** ** Sample data *)

(** A text column with a clear mode and one missing cell. *)
Definition col_dept : Column :=
  ColObj [Some (VStr "A"); Some (VStr "A"); Some (VStr "A"); Some (VStr "B"); None].

Definition df_texto : DataFrame :=
  mkDF 5 [("dept", col_dept);
          ("age", ColNum DInt64 [Some 30; Some 41; Some 25; Some 38; Some 52])].

(** The scenarios of the specification: 100 rows of "A", "B", "C" and
    missing cells. *)
Definition df_escenario (a b c m : nat) : DataFrame :=
  mkDF (a + b + c + m)
       [("x", ColObj (repeat (Some (VStr "A")) a ++ repeat (Some (VStr "B")) b
                      ++ repeat (Some (VStr "C")) c ++ repeat None m))].

(** A frame without rows. *)
Definition df_vacio : DataFrame :=
  mkDF 0 [("dept", ColObj []); ("age", ColNum DFloat64 [])].

(** One feature known everywhere, one with a single gap (1 row in 6). *)
Definition datos_x : list (option Q) := [Some 0; Some 0; Some 1; Some 3; Some 7; Some 7].
Definition datos_y : list (option Q) :=
  [Some 10; Some 10; None; Some 20; Some 40; Some 40].


(** A nullable integer column with half of its cells missing. *)
Definition datos_n : list (option Q) := [Some 1; None; None; Some 4].

Definition df_entero : DataFrame :=
  mkDF 4 [("n", ColNum DInt64Nullable datos_n);
          ("t", ColObj [Some (VStr "w"); None; Some (VStr "y"); Some (VStr "z")])].

(* ------------------------------------------------------------------------ *)
(** ** The decision of the categorical loop, column by column *)

(** The column that one pass of the loop of [imputar_categoricas] stores
    for a column [c] of a frame of [total] rows: the body of the loop reads
    nothing else of the frame. *)
Definition columna_categorica (umbral_nulos_alto umbral_nulos_bajo umbral_moda_bajo
                               umbral_moda_medio umbral_ventaja : Q)
           (etiqueta_unknown : string) (total : nat) (c : Column) : Column :=
  let porcentaje_nulos := porcentaje (count_null (col_cells c)) total in
  if Qgt_bool porcentaje_nulos umbral_nulos_alto then fillna c (VStr etiqueta_unknown)
  else
    match value_counts (col_cells c) with
    | [] => fillna c (VStr etiqueta_unknown)
    | (v1, primero) :: resto =>
        let pct_primero := ratio primero total in
        let pct_segundo :=
          match resto with
          | (_, segundo) :: _ => ratio segundo total
          | [] => 0
          end in
        let umbral_moda :=
          if Qle_bool porcentaje_nulos umbral_nulos_bajo
          then umbral_moda_bajo else umbral_moda_medio in
        if Qle_bool umbral_moda pct_primero
           && Qle_bool umbral_ventaja (pct_primero - pct_segundo)
        then fillna c (hd v1 (modes (col_cells c)))
        else fillna c (VStr etiqueta_unknown)
    end.


(* ------------------------------------------------------------------------ *)
(** ** Range of a numeric column *)



(** The column [n], if the frame has it, has no missing cell when it is
    numeric. *)
Definition numerica_sin_nulos (df : DataFrame) (n : string) : Prop :=
  forall c, df_get df n = Some c -> is_numeric c = true ->
            count_null (col_cells c) = 0%nat.

(* ------------------------------------------------------------------------ *)
(** ** The imputation stage of the pipeline (src/pipeline.py)

    [run_cleaning_pipeline], from the selection of the text columns to the
    report of the numeric imputation. *)

(** [str.lower] on the letters A-Z; every other byte of the (UTF-8) name
    is kept.  The pipeline only compares the result with the word
    "attrition", and no character outside A-Z is lowered by Python to one
    of its letters. *)
Definition lower_ascii (a : ascii) : ascii :=
  let n := nat_of_ascii a in
  if ((65 <=? n) && (n <=? 90))%nat then ascii_of_nat (n + 32) else a.

Fixpoint lower (s : string) : string :=
  match s with
  | EmptyString => EmptyString
  | String a s' => String (lower_ascii a) (lower s')
  end.

(** [df.select_dtypes(include=["object", "category"]).columns.tolist()] *)
Definition select_object (df : DataFrame) : list string :=
  map fst (filter (fun nc => negb (is_numeric (snd nc))) (columns df)).

(** The numeric columns with at least one missing cell:
    [df.select_dtypes(include=[np.number]).columns[....isnull().any()].tolist()] *)
Definition numericas_con_nulos (df : DataFrame) : list string :=
  map fst (filter (fun nc => negb (count_null (col_cells (snd nc)) =? 0)%nat)
                  (filter (fun nc => is_numeric (snd nc)) (columns df))).

(** [df[cols].isnull().sum().sum()]; [None] when a label is not a column
    ([KeyError]). *)
Fixpoint nulos_en (df : DataFrame) (cols : list string) : option nat :=
  match cols with
  | [] => Some 0%nat
  | n :: cols' =>
      match df_get df n, nulos_en df cols' with
      | Some c, Some k => Some (count_null (col_cells c) + k)%nat
      | _, _ => None
      end
  end.

(** What the stage prints: the diagnostics of the two imputers and the two
    closing reports. *)
Inductive MsgEtapa : Type :=
| MsgImputacion (m : Msg)
| MsgNulosCategoricos (nulos_restantes_cat : nat)
| MsgNulosNumericos (nulos_restantes : nat).

Inductive Etapa : Type :=
| EtapaOk (df : DataFrame) (salida : list MsgEtapa)
| EtapaRaise (e : Exn) (df : DataFrame) (salida : list MsgEtapa).

Definition etapa_df (r : Etapa) : DataFrame :=
  match r with EtapaOk df _ => df | EtapaRaise _ df _ => df end.

Definition etapa_salida (r : Etapa) : list MsgEtapa :=
  match r with EtapaOk _ s => s | EtapaRaise _ _ s => s end.

Section EtapaImputacion.

(** The test of the pattern [^\s*$] on a text. *)
Variable es_blanco : string -> bool.

(** [s.replace(r'^\s*$', pd.NA, regex=True)]: the pattern is tried on the
    text cells only. *)
Definition replace_blancos (c : Column) : Column :=
  match c with
  | ColObj xs =>
      ColObj (map (fun x => match x with
                            | Some (VStr s) => if es_blanco s then None else x
                            | _ => x
                            end) xs)
  | ColNum _ _ => c
  end.

(** [df[cols] = df[cols].replace(r'^\s*$', pd.NA, regex=True)]: the right
    hand side is computed from the frame as it is, then assigned label by
    label. *)
Definition reemplazar_blancos (df : DataFrame) (cols : list string) : DataFrame :=
  fold_left (fun d n => match df_get df n with
                        | Some c => df_set d n (replace_blancos c)
                        | None => d
                        end) cols df.

(** [cols_cat]: the text columns, "attrition" apart. *)
Definition cols_cat (df : DataFrame) : list string :=
  filter (fun c => negb (String.eqb (lower c) "attrition")) (select_object df).

Definition etapa_imputacion (df : DataFrame) : Etapa :=
  let cols_cat := cols_cat df in
  let df := reemplazar_blancos df cols_cat in
  let '(df, out_cat) := imputar_categoricas_default df cols_cat in
  let salida := map MsgImputacion out_cat in
  match nulos_en df cols_cat with
  | None => EtapaRaise KeyError df salida
  | Some nulos_restantes_cat =>
      let salida := salida ++ [MsgNulosCategoricos nulos_restantes_cat] in
      let cols_num := numericas_con_nulos df in
      let cols_a_imputar_num := cols_num in
      match imputar_numericas_default df cols_a_imputar_num with
      | Raise e (df, out_num) => EtapaRaise e df (salida ++ map MsgImputacion out_num)
      | Ok (df, out_num) =>
          let salida := salida ++ map MsgImputacion out_num in
          match nulos_en df cols_a_imputar_num with
          | None => EtapaRaise KeyError df salida
          | Some nulos_restantes =>
              EtapaOk df (salida ++ [MsgNulosNumericos nulos_restantes])
          end
      end
  end.

End EtapaImputacion.

(** A frame as the stage meets it: two text columns with blanks and gaps,
    the target column, and two numeric columns with gaps. *)
Definition blanco_ascii (s : string) : bool :=
  forallb (fun a => Ascii.eqb a " "%char) (list_ascii_of_string s).

Definition df_etapa : DataFrame :=
  mkDF 4
    [("department", ColObj [Some (VStr "Sales"); Some (VStr " "); Some (VStr "Sales");
                            Some (VStr "Sales")]);
     ("Attrition", ColObj [Some (VStr "Yes"); None; Some (VStr ""); Some (VStr "No")]);
     ("age", ColNum DInt64Nullable [Some 30; None; Some 41; Some 35]);
     ("daily_rate", ColNum DFloat64 [Some 100; Some 200; Some 300; Some 400])].

(* ------------------------------------------------------------------------ *)
(** ** eliminar_columnas_sin_aporte_analitico (src/cleaning_core.py)

    The step of the pipeline that removes the constant columns and the
    columns of high cardinality before the imputation stage. *)

(** [s.nunique(dropna=False)]: the distinct present values, and the
    missing value as one more when the series has a gap. *)
Definition nunique (cs : list cell) : nat :=
  (length (distinct (present cs)) + (if (count_null cs =? 0)%nat then 0 else 1))%nat.

(** [df.drop(columns=cols)] for labels of the frame. *)
Definition df_drop (df : DataFrame) (cols : list string) : DataFrame :=
  mkDF (nrows df)
       (filter (fun nc => negb (existsb (String.eqb (fst nc)) cols)) (columns df)).

(** The result: the frame and the printed list of removed labels, or the
    [ZeroDivisionError] of [n_unique / len(df)]. *)
Inductive Eliminacion : Type :=
| EliminacionOk (df : DataFrame) (columnas_a_eliminar : list string)
| EliminacionZeroDivision.

Section EliminarColumnas.

Variable umbral_cardinalidad : Q.

(** The loop [for col in df.columns] over the columns of a frame of
    [total] rows; [None] when the division raises. *)
Fixpoint columnas_a_eliminar (total : nat) (cols : list (string * Column))
         (acc : list string) : option (list string) :=
  match cols with
  | [] => Some acc
  | (col, c) :: cols' =>
      let n_unique := nunique (col_cells c) in
      if (total =? 0)%nat then None
      else
        let porcentaje_unique := ratio n_unique total in
        if (n_unique =? 1)%nat then columnas_a_eliminar total cols' (acc ++ [col])
        else if Qgt_bool porcentaje_unique umbral_cardinalidad
             then columnas_a_eliminar total cols' (acc ++ [col])
             else columnas_a_eliminar total cols' acc
  end.

Definition eliminar_columnas_sin_aporte_analitico (df : DataFrame) : Eliminacion :=
  match columnas_a_eliminar (nrows df) (columns df) [] with
  | None => EliminacionZeroDivision
  | Some l => EliminacionOk (df_drop df l) l
  end.

(** The test of the loop on one column. *)
Definition sin_aporte (total : nat) (c : Column) : bool :=
  (nunique (col_cells c) =? 1)%nat
  || Qgt_bool (ratio (nunique (col_cells c)) total) umbral_cardinalidad.

End EliminarColumnas.

(** The call as the pipeline makes it. *)
Definition eliminar_columnas_default (df : DataFrame) : Eliminacion :=
  eliminar_columnas_sin_aporte_analitico (95 # 100) df.

(** The column holds one value only, or gaps only. *)
Definition constante (c : Column) : bool := (nunique (col_cells c) =? 1)%nat.

(** A frame with a constant column, an identifier and an ordinary column. *)
Definition df_aporte : DataFrame :=
  mkDF 4
    [("over18", ColObj [Some (VStr "Y"); Some (VStr "Y"); Some (VStr "Y");
                        Some (VStr "Y")]);
     ("employee_count", ColNum DInt64 [Some 1; Some 2; Some 3; Some 4]);
     ("gender", ColObj [Some (VStr "M"); Some (VStr "F"); None; Some (VStr "F")])].

(* ------------------------------------------------------------------------ *)
(** ** mapear_columnas_ordinales (src/ordinal_mapping.py)

    The step of the pipeline that turns the ordinal codes into labels; the
    codes it does not know become the gaps that [imputar_categoricas]
    fills. *)

(** A dictionary from numeric codes to labels, one entry per code. *)
Definition Mapa : Type := list (Q * string).

Fixpoint mapa_get (mapa : Mapa) (q : Q) : option string :=
  match mapa with
  | [] => None
  | (k, v) :: mapa' => if Qeq_bool k q then Some v else mapa_get mapa' q
  end.

(** [s.map(mapa)]: a cell whose value is not a key of the dictionary
    becomes missing; the result is an object series. *)
Definition map_serie (mapa : Mapa) (c : Column) : Column :=
  ColObj (map (fun x => match x with
                        | Some (VNum q) => option_map VStr (mapa_get mapa q)
                        | _ => None
                        end) (col_cells c)).

(** Body of the loop [for columna, mapa in mapeos_columnas.items()]; the
    second component is [columnas_mapeadas]. *)
Definition mapear_columna (st : DataFrame * list string) (item : string * Mapa)
  : DataFrame * list string :=
  let '(df, columnas_mapeadas) := st in
  let '(columna, mapa) := item in
  match df_get df columna with
  | Some c => (df_set df columna (map_serie mapa c), columnas_mapeadas ++ [columna])
  | None => (df, columnas_mapeadas)
  end.

Definition mapear_columnas_ordinales (df : DataFrame) (mapeos_columnas : list (string * Mapa))
  : DataFrame * list string :=
  fold_left mapear_columna mapeos_columnas (df, []).

(** The dictionaries of the pipeline for two of its columns, and a frame
    that has one of them. *)
Definition job_level_map : Mapa :=
  [(1, "Entry Level"); (2, "Junior"); (3, "Senior"); (4, "Manager"); (5, "Executive")].

Definition stock_level_map : Mapa :=
  [(0, "Unvested"); (1, "Basic"); (2, "Intermediate"); (3, "Executive")].

Definition df_ordinal : DataFrame :=
  mkDF 3
    [("job_level", ColNum DInt64 [Some 1; Some 7; Some 5]);
     ("age", ColNum DInt64 [Some 30; Some 41; Some 35])].

(** A frame whose two columns have no observed value, a frame of one row,
    and the dictionaries of two columns of the pipeline. *)
Definition df_sin_valores : DataFrame :=
  mkDF 2 [("c", ColObj [None; None]); ("v", ColNum DFloat64 [None; None])].

Definition df_una_fila : DataFrame :=
  mkDF 1 [("gender", ColObj [Some (VStr "F")]); ("age", ColNum DInt64 [Some 30])].

Definition mapeos_ejemplo : list (string * Mapa) :=
  [("job_level", job_level_map); ("stock_option_level", stock_level_map)].

(* ======================================================================== *)
(** * Properties *)

(** ** Labels and columns *)

Lemma assoc_get_set_same l col c : assoc_get (assoc_set l col c) col = Some c.
Proof.
  induction l as [|[n c0] l IH]; simpl.
  - now rewrite String.eqb_refl.
  - destruct (String.eqb n col) eqn:E; simpl; rewrite E; auto.
Qed.

Lemma assoc_get_set_other l col c col' :
  col' <> col -> assoc_get (assoc_set l col c) col' = assoc_get l col'.
Proof.
  intros Hne. induction l as [|[n c0] l IH]; simpl.
  - destruct (String.eqb_spec col col'); congruence.
  - destruct (String.eqb_spec n col) as [->|Hn]; simpl.
    + destruct (String.eqb_spec col col'); congruence.
    + now rewrite IH.
Qed.

Lemma assoc_set_get_id l col c : assoc_get l col = Some c -> assoc_set l col c = l.
Proof.
  induction l as [|[n c0] l IH]; simpl; [discriminate|].
  destruct (String.eqb n col); [intros [= ->]; reflexivity|].
  intros H. now rewrite IH.
Qed.

Lemma assoc_get_In l col : assoc_get l col <> None <-> In col (map fst l).
Proof.
  induction l as [|[n c0] l IH]; simpl; [tauto|].
  destruct (String.eqb_spec n col) as [->|Hn].
  - split; [auto | discriminate].
  - rewrite IH. split; [auto | intros [H|H]; [congruence | auto]].
Qed.

Lemma assoc_set_names_in l col c :
  In col (map fst l) -> map fst (assoc_set l col c) = map fst l.
Proof.
  induction l as [|[n c0] l IH]; simpl; [tauto|].
  destruct (String.eqb_spec n col) as [->|Hn]; simpl; [reflexivity|].
  intros [H|H]; [congruence | now rewrite IH].
Qed.

Lemma assoc_set_names_new l col c :
  ~ In col (map fst l) -> map fst (assoc_set l col c) = map fst l ++ [col].
Proof.
  induction l as [|[n c0] l IH]; simpl; [reflexivity|].
  destruct (String.eqb_spec n col) as [->|Hn]; simpl; [tauto|].
  intros H. rewrite IH; tauto.
Qed.

Lemma df_get_set_same df col c : df_get (df_set df col c) col = Some c.
Proof. apply assoc_get_set_same. Qed.

Lemma df_get_set_other df col c col' :
  col' <> col -> df_get (df_set df col c) col' = df_get df col'.
Proof. apply assoc_get_set_other. Qed.

Lemma df_set_get_id df col c : df_get df col = Some c -> df_set df col c = df.
Proof.
  intros H. destruct df as [n l]. unfold df_set, df_get in *; simpl in *.
  now rewrite assoc_set_get_id.
Qed.

Lemma nrows_df_set df col c : nrows (df_set df col c) = nrows df.
Proof. reflexivity. Qed.

Lemma has_col_true df col : has_col df col = true <-> exists c, df_get df col = Some c.
Proof.
  unfold has_col. destruct (df_get df col); split; eauto; try discriminate.
  intros [c H]; discriminate.
Qed.

Lemma has_col_In df col : has_col df col = true <-> In col (col_names df).
Proof.
  unfold has_col, col_names, df_get. rewrite <- assoc_get_In.
  destruct (assoc_get (columns df) col); split; congruence.
Qed.

Lemma has_col_df_set df col c col' :
  has_col df col' = true -> has_col (df_set df col c) col' = true.
Proof.
  intros H. destruct (String.eqb_spec col' col) as [->|Hne].
  - unfold has_col. now rewrite df_get_set_same.
  - unfold has_col. now rewrite df_get_set_other.
Qed.

(** ** Missing cells and fillna *)

Lemma count_null_fill {A} (v : A) cs : count_null (fill v cs) = 0%nat.
Proof.
  unfold count_null, fill. induction cs as [|[x|] cs IH]; simpl; auto.
Qed.

Lemma count_null_map_VNum xs : count_null (map (option_map VNum) xs) = count_null xs.
Proof.
  unfold count_null. induction xs as [|[x|] xs IH]; simpl; auto.
Qed.

Lemma fill_no_null {A} (v : A) cs : count_null cs = 0%nat -> fill v cs = cs.
Proof.
  unfold count_null, fill. induction cs as [|[x|] cs IH]; simpl; intros H;
    [reflexivity | f_equal; auto | discriminate].
Qed.

Lemma fillna_complete c v : count_null (col_cells (fillna c v)) = 0%nat.
Proof.
  destruct c as [dt xs|xs]; simpl.
  - destruct (Nat.eqb_spec (count_null xs) 0) as [E|E]; simpl.
    + now rewrite count_null_map_VNum.
    + destruct v; simpl; [apply count_null_fill|].
      rewrite count_null_map_VNum. apply count_null_fill.
  - apply count_null_fill.
Qed.

Lemma fillna_no_null c v : count_null (col_cells c) = 0%nat -> fillna c v = c.
Proof.
  destruct c as [dt xs|xs]; simpl; intros H.
  - rewrite count_null_map_VNum in H. now rewrite H.
  - now rewrite fill_no_null.
Qed.

Lemma count_null_nil_cells c : col_len c = 0%nat -> count_null (col_cells c) = 0%nat.
Proof.
  destruct c as [dt [|x xs]|[|x xs]]; simpl; intros H; try discriminate; reflexivity.
Qed.

(** ** value_counts and mode *)























Section ValueCounts.

Variable cs : list cell.
Variables (v1 : value) (primero : nat) (resto : list (value * nat)).
Hypothesis Hvalores : value_counts cs = (v1, primero) :: resto.










End ValueCounts.


(* ------------------------------------------------------------------------ *)
(** ** The categorical imputer *)

Section CategoricasProps.

Variables umbral_nulos_alto umbral_nulos_bajo : Q.
Variables umbral_moda_bajo umbral_moda_medio umbral_ventaja : Q.
Variable etiqueta_unknown : string.

Local Abbreviation paso :=
  (imputar_categoricas_col umbral_nulos_alto umbral_nulos_bajo
     umbral_moda_bajo umbral_moda_medio umbral_ventaja etiqueta_unknown).

(** Whatever branch is taken, the loop body either leaves the frame alone
    or stores [fillna] of the column it was asked to treat. *)
Lemma paso_shape total df out col :
  (df_get df col = None /\ fst (paso total (df, out) col) = df) \/
  (exists c v, df_get df col = Some c /\
               fst (paso total (df, out) col) = df_set df col (fillna c v)).
Proof.
  unfold paso, imputar_categoricas_col.
  destruct (df_get df col) as [c|] eqn:Hc; [right | left; auto].
  exists c.
  destruct (Qgt_bool _ _); [eexists; split; [reflexivity|reflexivity]|].
  destruct (value_counts (col_cells c)) as [|[v1 primero] resto];
    [eexists; split; reflexivity|].
  destruct (_ && _); eexists; split; reflexivity.
Qed.

Lemma paso_establishes total st col :
  has_col (fst st) col = true -> sin_nulos (fst (paso total st col)) col.
Proof.
  destruct st as [df out]; cbn [fst]. intros H.
  apply has_col_true in H as [c Hc].
  destruct (paso_shape total df out col) as [[Hn _]|(c' & v & Hc' & ->)];
    [congruence|].
  exists (fillna c' v). split; [apply df_get_set_same | apply fillna_complete].
Qed.

Lemma paso_preserves total st col x :
  sin_nulos (fst st) col -> sin_nulos (fst (paso total st x)) col.
Proof.
  destruct st as [df out]; cbn [fst]. intros (c & Hc & Hz).
  destruct (paso_shape total df out x) as [[_ ->]|(c' & v & Hc' & ->)];
    [exists c; auto|].
  destruct (String.eqb_spec col x) as [->|Hne].
  - exists (fillna c' v). split; [apply df_get_set_same | apply fillna_complete].
  - exists c. split; [rewrite df_get_set_other; auto | auto].
Qed.

Lemma paso_has_col total st x col :
  has_col (fst st) col = true -> has_col (fst (paso total st x)) col = true.
Proof.
  destruct st as [df out]; cbn [fst]. intros H.
  destruct (paso_shape total df out x) as [[_ ->]|(c' & v & Hc' & ->)]; auto.
  now apply has_col_df_set.
Qed.

Lemma fold_preserves total cols : forall st col,
  sin_nulos (fst st) col -> sin_nulos (fst (fold_left (paso total) cols st)) col.
Proof.
  induction cols as [|x cols IH]; simpl; intros st col H; auto.
  apply IH. now apply paso_preserves.
Qed.

Lemma fold_completes total cols : forall st col,
  In col cols -> has_col (fst st) col = true ->
  sin_nulos (fst (fold_left (paso total) cols st)) col.
Proof.
  induction cols as [|x cols IH]; simpl; intros st col Hin Hhas; [tauto|].
  destruct (String.eqb_spec x col) as [->|Hne].
  - apply fold_preserves. now apply paso_establishes.
  - destruct Hin as [->|Hin]; [congruence|].
    apply IH; auto. now apply paso_has_col.
Qed.



Lemma wf_col_len df col c : wf_df df -> df_get df col = Some c -> col_len c = nrows df.
Proof.
  intros [_ Hall] Hc. unfold df_get in Hc.
  induction (columns df) as [|[n c0] l IH]; simpl in *; [discriminate|].
  inversion Hall as [|? ? Hhd Htl]; subst. simpl in Hhd.
  destruct (String.eqb n col); [now injection Hc as <- | auto].
Qed.

Lemma col_cells_nil c : col_len c = 0%nat -> col_cells c = [].
Proof.
  destruct c as [dt [|x xs]|[|x xs]]; simpl; intros H; try discriminate; reflexivity.
Qed.

Lemma paso_sin_filas df out col :
  wf_df df -> nrows df = 0%nat -> 0 <= umbral_nulos_alto ->
  paso 0%nat (df, out) col = (df, out ++ diagnostico_sin_filas etiqueta_unknown df col).
Proof.
  intros Hwf H0 Hhigh. unfold imputar_categoricas_col, diagnostico_sin_filas, has_col.
  destruct (df_get df col) as [c|] eqn:Hc; [|now rewrite <- app_assoc].
  assert (Hlen : col_len c = 0%nat) by (rewrite <- H0; eapply wf_col_len; eauto).
  rewrite (col_cells_nil c Hlen). cbn [count_null filter length].
  unfold porcentaje. cbn [Nat.ltb Nat.leb]. unfold Qgt_bool.
  apply Qle_bool_iff in Hhigh. rewrite Hhigh. cbn [negb value_counts present].
  cbn [distinct map sort_desc fold_right].
  rewrite fillna_no_null by (now apply count_null_nil_cells).
  rewrite df_set_get_id by assumption.
  now rewrite <- !app_assoc.
Qed.

(** C10.  On a frame without rows [imputar_categoricas] returns: the ratio
    of every requested column is 0 (the guard on [total] stands in for the
    division), every requested column that exists is reported as a column
    without values, and the frame comes back as it was. *)
Theorem C10_categoricas_sin_filas (df : DataFrame) (columnas : list string) :
  wf_df df ->
  nrows df = 0%nat ->
  0 <= umbral_nulos_alto ->
  imputar_categoricas umbral_nulos_alto umbral_nulos_bajo umbral_moda_bajo
    umbral_moda_medio umbral_ventaja etiqueta_unknown df columnas
  = (df, flat_map (diagnostico_sin_filas etiqueta_unknown df) columnas)
  /\ (forall nulos, porcentaje nulos (nrows df) = 0).
Proof.
  intros Hwf H0 Hhigh. split.
  - unfold imputar_categoricas. rewrite H0.
    change (flat_map (diagnostico_sin_filas etiqueta_unknown df) columnas)
      with ([] ++ flat_map (diagnostico_sin_filas etiqueta_unknown df) columnas).
    generalize (@nil Msg) as out.
    induction columnas as [|col cols IH]; intros out; cbn [fold_left flat_map].
    + now rewrite app_nil_r.
    + rewrite paso_sin_filas by assumption. rewrite IH. now rewrite <- app_assoc.
  - intros nulos. unfold porcentaje. now rewrite H0.
Qed.



End CategoricasProps.


(* ------------------------------------------------------------------------ *)
(** ** Names of the indicator columns *)

Lemma length_append (a b : string) :
  String.length (a ++ b) = (String.length a + String.length b)%nat.
Proof. induction a as [|ch a IH]; simpl; [reflexivity | now rewrite IH]. Qed.

Lemma append_neq_self (a : string) : a <> (a ++ "_missing")%string.
Proof.
  intros H. apply (f_equal String.length) in H. rewrite length_append in H.
  simpl in H. lia.
Qed.


(* ------------------------------------------------------------------------ *)
(** ** The numeric imputer: what a call may write *)

Lemma escrituras_weaken (P Q : string -> Prop) df df' :
  (forall n, P n -> Q n) -> escrituras P df df' -> escrituras Q df df'.
Proof.
  intros HPQ H. induction H; [constructor | constructor; auto].
Qed.

Lemma escrituras_trans P a b c :
  escrituras P a b -> escrituras P b c -> escrituras P a c.
Proof.
  intros Hab Hbc. induction Hbc; [assumption | constructor; auto].
Qed.

Lemma escrituras_one P df n c :
  P n -> is_numeric c = true -> escrituras P df (df_set df n c).
Proof. intros. constructor; [constructor | assumption | assumption]. Qed.


Lemma escrituras_frame P df df' n :
  escrituras P df df' -> ~ P n -> df_get df' n = df_get df n.
Proof.
  intros H Hn. induction H as [|df df' m c H IH Hm Hc]; [reflexivity|].
  rewrite df_get_set_other; [assumption | intros ->; contradiction].
Qed.

Lemma escrituras_has_col P df df' n :
  escrituras P df df' -> has_col df n = true -> has_col df' n = true.
Proof.
  intros H Hn. induction H; [assumption | apply has_col_df_set; auto].
Qed.

Lemma escrituras_numerica P df df' n :
  escrituras P df df' -> es_numerica df n -> es_numerica df' n.
Proof.
  intros H Hn. induction H as [|df df' m c H IH Hm Hc]; [assumption|].
  destruct (String.eqb_spec n m) as [->|Hne].
  - destruct c as [dt xs|]; [|discriminate]. exists dt, xs. apply df_get_set_same.
  - destruct (IH Hn) as (dt & xs & E). exists dt, xs. now rewrite df_get_set_other.
Qed.

Lemma col_names_df_set df n c :
  col_names (df_set df n c) = col_names df ++ (if has_col df n then [] else [n]).
Proof.
  unfold col_names, df_set; cbn [columns].
  destruct (has_col df n) eqn:E.
  - apply has_col_In in E. rewrite app_nil_r. now apply assoc_set_names_in.
  - apply assoc_set_names_new. intros H. apply has_col_In in H. congruence.
Qed.

(** The labels of the frame keep their order; the new ones follow them. *)
Lemma escrituras_names P df df' :
  escrituras P df df' ->
  exists nuevos, col_names df' = col_names df ++ nuevos /\
                 Forall (fun n => P n /\ has_col df n = false) nuevos.
Proof.
  induction 1 as [|df df' m c H IH Hm Hc].
  - exists []. split; [now rewrite app_nil_r | constructor].
  - destruct IH as (nuevos & Hn & Hall).
    rewrite col_names_df_set, Hn, <- app_assoc.
    destruct (has_col df' m) eqn:E.
    + exists nuevos. rewrite app_nil_r. auto.
    + exists (nuevos ++ [m]). split; [reflexivity|].
      apply Forall_app. split; [assumption|]. constructor; [|constructor].
      split; [assumption|].
      destruct (has_col df m) eqn:E2; [|reflexivity].
      rewrite (escrituras_has_col _ _ _ _ H E2) in E. discriminate.
Qed.

Section NumericasProps.

Variables umbral_nulos_bajo umbral_nulos_alto : Q.
Variable n_neighbors : nat.
Variables crear_indicador_missing usar_knn_en_alto : bool.

Local Abbreviation paso_num :=
  (imputar_numericas_col umbral_nulos_bajo umbral_nulos_alto n_neighbors
     crear_indicador_missing usar_knn_en_alto).

Local Abbreviation llamada :=
  (imputar_numericas umbral_nulos_bajo umbral_nulos_alto n_neighbors
     crear_indicador_missing usar_knn_en_alto).

Lemma imputar_mediana_escrituras st col :
  escrituras (fun n => n = col) (fst st) (fst (estado (imputar_mediana st col)))
  /\ snd (estado (imputar_mediana st col)) = snd st.
Proof.
  unfold imputar_mediana. destruct (num_cells (fst st) col) as [xs|];
    [|split; [constructor | reflexivity]].
  destruct (mediana_fit_transform xs) as [ys|]; cbn [estado fst snd];
    [|split; [constructor | reflexivity]].
  split; [now apply escrituras_one | reflexivity].
Qed.

Lemma imputar_knn_escrituras ctx st col :
  escrituras (fun n => n = col) (fst st) (fst (estado (imputar_knn n_neighbors ctx st col)))
  /\ snd (estado (imputar_knn n_neighbors ctx st col)) = snd st.
Proof.
  unfold imputar_knn.
  destruct (num_table (fst st) ctx) as [X|]; [|split; [constructor | reflexivity]].
  destruct (num_cells (fst st) col) as [xs|]; [|split; [constructor | reflexivity]].
  repeat (match goal with
          | |- context [if ?b then _ else _] => destruct b
          end; [split; [constructor | reflexivity]|]).
  cbn [estado fst snd]. split; [now apply escrituras_one | reflexivity].
Qed.

Lemma paso_num_escrituras total ctx df out col :
  escrituras (fun n => n = col \/ n = (col ++ "_missing")%string) df
             (fst (estado (paso_num total ctx (df, out) col))).
Proof.
  unfold imputar_numericas_col.
  destruct (df_get df col) as [c|]; [|constructor].
  destruct (Qle_bool _ umbral_nulos_bajo).
  { eapply escrituras_weaken; [|apply (imputar_mediana_escrituras (df, _) col)]. auto. }
  destruct (Qle_bool _ umbral_nulos_alto).
  { eapply escrituras_weaken; [|apply (imputar_knn_escrituras ctx (df, _) col)]. auto. }
  set (df1 := if crear_indicador_missing then _ else df).
  assert (H1 : escrituras (fun n => n = col \/ n = (col ++ "_missing")%string) df df1).
  { unfold df1. destruct crear_indicador_missing; [|constructor].
    apply escrituras_one; auto. }
  eapply escrituras_trans; [exact H1|].
  destruct usar_knn_en_alto.
  - eapply escrituras_weaken; [|apply (imputar_knn_escrituras ctx (df1, _) col)]. auto.
  - eapply escrituras_weaken; [|apply (imputar_mediana_escrituras (df1, _) col)]. auto.
Qed.

Lemma for_each_escrituras total ctx cols : forall st,
  escrituras (fun n => In n cols \/ indicador_de cols n) (fst st)
             (fst (estado (for_each (paso_num total ctx) cols st))).
Proof.
  induction cols as [|x cols IH]; intros [df out]; cbn [for_each]; [constructor|].
  pose proof (paso_num_escrituras total ctx df out x) as H1.
  destruct (paso_num total ctx (df, out) x) as [st'|e st'] eqn:E; cbn [estado] in *.
  - eapply escrituras_trans.
    + eapply escrituras_weaken; [|exact H1].
      intros n [-> | ->]; [left; now left | right; exists x; split; [now left | reflexivity]].
    + eapply escrituras_weaken; [|apply IH].
      intros n [H|(y & Hy & ->)]; [left; now right | right; exists y; split; [now right | reflexivity]].
  - eapply escrituras_weaken; [|exact H1].
    intros n [-> | ->]; [left; now left | right; exists x; split; [now left | reflexivity]].
Qed.

Lemma restaurar_entero_escrituras orig df col :
  escrituras (fun n => n = col) df (restaurar_entero orig df col).
Proof.
  unfold restaurar_entero. destruct (df_get orig col) as [c0|]; [|constructor].
  destruct (is_integer_dtype c0); [|constructor].
  destruct (num_cells df col); [|constructor].
  now apply escrituras_one.
Qed.

Lemma fold_restaurar_escrituras orig cols : forall df,
  escrituras (fun n => In n cols) df (fold_left (restaurar_entero orig) cols df).
Proof.
  induction cols as [|x cols IH]; intros df; cbn [fold_left]; [constructor|].
  eapply escrituras_trans.
  - eapply escrituras_weaken; [|apply (restaurar_entero_escrituras orig df x)].
    intros n ->. now left.
  - eapply escrituras_weaken; [|apply IH]. intros n H. now right.
Qed.

Lemma In_validas df columnas n :
  In n (validas df columnas) -> In n columnas /\ es_numerica df n.
Proof.
  unfold validas. intros H. apply filter_In in H as [H _].
  apply filter_In in H as [H1 H2]. split; [assumption|].
  destruct (df_get df n) as [[dt xs|]|] eqn:E; try discriminate. now exists dt, xs.
Qed.

Lemma select_numeric_In df n dt xs :
  df_get df n = Some (ColNum dt xs) -> In n (select_numeric df).
Proof.
  unfold df_get, select_numeric. induction (columns df) as [|[m c] l IH]; simpl;
    [discriminate|].
  destruct (String.eqb_spec m n) as [->|Hne].
  - intros [= ->]. simpl. now left.
  - intros H. destruct (is_numeric c); simpl; auto.
Qed.

Lemma validas_In df columnas n :
  In n columnas -> es_numerica df n -> In n (validas df columnas).
Proof.
  intros Hin (dt & xs & E). unfold validas.
  apply filter_In. split.
  - apply filter_In. split; [assumption | now rewrite E].
  - apply existsb_exists. exists n. split; [|apply String.eqb_refl].
    eapply select_numeric_In; eauto.
Qed.

(** A call that ends, returned or raised, has only assigned numeric data
    to requested numeric columns and to their indicators. *)
Lemma llamada_escrituras df columnas :
  escrituras (fun n => In n (validas df columnas) \/ indicador_de (validas df columnas) n)
             df (fst (estado (llamada df columnas))).
Proof.
  unfold imputar_numericas. fold (validas df columnas).
  destruct (negb (forallb (has_col df) columnas)); [constructor|].
  destruct (validas df columnas) as [|v vs] eqn:Ev; [constructor|].
  pose proof (for_each_escrituras (nrows df) (select_numeric df) (v :: vs)
                (df, map MsgNumNoExiste (filter (fun c => negb (has_col df c)) columnas)))
    as H.
  destruct (for_each _ (v :: vs) _) as [[df' out']|e st'] eqn:E; cbn [estado fst] in *;
    [|assumption].
  eapply escrituras_trans; [exact H|].
  eapply escrituras_weaken; [|apply fold_restaurar_escrituras]. auto.
Qed.

Lemma llamada_KeyError df columnas c :
  In c columnas -> has_col df c = false -> llamada df columnas = Raise KeyError (df, []).
Proof.
  intros Hin Hc. unfold imputar_numericas.
  assert (H : forallb (has_col df) columnas = false).
  { destruct (forallb (has_col df) columnas) eqn:E; [|reflexivity].
    rewrite forallb_forall in E. rewrite (E c Hin) in Hc. discriminate. }
  now rewrite H.
Qed.

Lemma filter_negb_forallb {A} (f : A -> bool) l :
  forallb f l = true -> filter (fun x => negb (f x)) l = [].
Proof.
  induction l as [|x l IH]; cbn [forallb filter]; [reflexivity|].
  intros H. apply andb_prop in H as [Hx Hl]. rewrite Hx. cbn [negb]. auto.
Qed.

Lemma llamada_sin_validas df columnas :
  forallb (has_col df) columnas = true -> validas df columnas = [] ->
  llamada df columnas = Ok (df, [MsgNumSinValidas]).
Proof.
  intros Hall Hv. unfold imputar_numericas. fold (validas df columnas).
  rewrite Hall, Hv. cbn [negb].
  now rewrite (filter_negb_forallb (has_col df) columnas Hall).
Qed.

(** C1.  A requested name that is not a column of the dataset makes
    [imputar_numericas] raise: the selection [df[columnas]] on its first
    line fails with [KeyError] before anything is reported or imputed, and
    the lines that would report and skip the name are never reached. *)
Theorem C1_columna_ausente_KeyError (df : DataFrame) (columnas : list string) (c : string) :
  In c columnas ->
  has_col df c = false ->
  llamada df columnas = Raise KeyError (df, [])
  /\ ~ In (MsgNumNoExiste c) (snd (estado (llamada df columnas))).
Proof.
  intros Hin Hc. rewrite (llamada_KeyError df columnas c Hin Hc).
  split; [reflexivity | intros []].
Qed.

(** C9.  With an empty eligible set the call returns the frame as it is,
    with the one diagnostic, when every requested name is a column; as
    soon as a requested name is not a column it raises [KeyError]
    instead. *)
Theorem C9_sin_columnas_validas (df : DataFrame) (columnas : list string) :
  validas df columnas = [] ->
  (forallb (has_col df) columnas = true ->
   llamada df columnas = Ok (df, [MsgNumSinValidas]))
  /\ (forall c, In c columnas -> has_col df c = false ->
      llamada df columnas = Raise KeyError (df, [])).
Proof.
  intros Hv. split.
  - intros Hall. now apply llamada_sin_validas.
  - intros c Hin Hc. now apply llamada_KeyError with c.
Qed.






(** *** The indicator of a column with many missing cells *)

Lemma count_null_map_Some {A} (l : list A) : count_null (map Some l) = 0%nat.
Proof. unfold count_null. induction l; simpl; auto. Qed.

Lemma mediana_fit_transform_Some xs ys :
  mediana_fit_transform xs = Some ys ->
  ys = fill (median xs) xs /\ xs <> [] /\ present xs <> [].
Proof.
  unfold mediana_fit_transform. destruct xs as [|x xs']; [discriminate|].
  destruct (present (x :: xs')); [discriminate|].
  intros [= <-]. repeat split; discriminate.
Qed.




Section Indicador.

Variables (total : nat) (ctx : list string).
Variables (col : string) (dt : NumDtype) (xs : list (option Q)).
Hypothesis Hcrear : crear_indicador_missing = true.
Hypothesis Halto : umbral_nulos_alto < porcentaje (count_null xs) total.
Hypothesis Hbajo_alto : umbral_nulos_bajo <= umbral_nulos_alto.
Hypothesis Halto_0 : 0 <= umbral_nulos_alto.

Local Abbreviation cm := (col ++ "_missing")%string.
Local Abbreviation ind := (indicador_missing (ColNum dt xs)).





End Indicador.



End NumericasProps.



(* ------------------------------------------------------------------------ *)
(** ** Standardisation and nearest neighbours *)






Lemma Qnat_nonneg n : 0 <= Qnat n.
Proof. unfold Qnat, Qle. simpl. lia. Qed.











(** *** Sorting the donors *)













(** *** The donors that are retained *)




Section Vecinos.

Variables (k : nat) (X : list (list (option Q))) (feat : list (option Q)) (i : nat).

Local Abbreviation cands :=
  (map (fun s => (s, dist_row X i s)) (potential_donors feat)).








End Vecinos.

(** *** Uniform average and the way back to the original scale *)














Lemma num_table_In df ctx X col xs :
  num_table df ctx = Some X -> In col ctx -> num_cells df col = Some xs -> In xs X.
Proof.
  revert X. induction ctx as [|c ctx IH]; intros X HX Hin Hc; [destruct Hin|].
  cbn [num_table] in HX.
  destruct (num_cells df c) as [ys|] eqn:Ec; [|discriminate].
  destruct (num_table df ctx) as [X'|]; [|discriminate].
  injection HX as <-. destruct Hin as [->|Hin].
  - left. congruence.
  - right. now apply IH.
Qed.


Section KnnProps.

Variables umbral_nulos_bajo umbral_nulos_alto : Q.
Variable n_neighbors : nat.
Variables crear_indicador_missing usar_knn_en_alto : bool.

Local Abbreviation paso_num :=
  (imputar_numericas_col umbral_nulos_bajo umbral_nulos_alto n_neighbors
     crear_indicador_missing usar_knn_en_alto).






End KnnProps.


(* ------------------------------------------------------------------------ *)
(** ** What the imputers leave untouched *)

Lemma length_fill {A} (v : A) cs : length (fill v cs) = length cs.
Proof. unfold fill. apply length_map. Qed.

Lemma nth_fill {A} (v w : A) cs i :
  nth i cs None = Some w -> nth i (fill v cs) None = Some w.
Proof.
  revert i. induction cs as [|c cs IH]; intros [|i]; simpl; try discriminate; auto.
  now intros ->.
Qed.

Lemma nth_map_VNum xs i v :
  nth i (map (option_map VNum) xs) None = Some v ->
  exists x, v = VNum x /\ nth i xs None = Some x.
Proof.
  revert i. induction xs as [|[x|] xs IH]; intros [|i]; simpl; try discriminate; auto.
  intros [= <-]. eauto.
Qed.

Lemma nth_map_VNum_Some xs i x :
  nth i xs None = Some x -> nth i (map (option_map VNum) xs) None = Some (VNum x).
Proof.
  revert i. induction xs as [|[y|] xs IH]; intros [|i]; simpl; try discriminate; auto.
  now intros [= ->].
Qed.

Lemma rellena_refl c : rellena c c.
Proof. split; auto. Qed.

Lemma rellena_trans a b c : rellena a b -> rellena b c -> rellena a c.
Proof. intros [L1 H1] [L2 H2]. split; [congruence | auto]. Qed.

Lemma fillna_rellena c v : rellena c (fillna c v).
Proof.
  destruct c as [dt xs|xs]; cbn [fillna].
  - destruct (count_null xs =? 0)%nat; [apply rellena_refl|].
    destruct v as [s|q]; split; cbn [col_cells].
    + apply length_fill.
    + intros i w. apply nth_fill.
    + rewrite !length_map. apply length_fill.
    + intros i w H. apply nth_map_VNum in H as (x & -> & Hx).
      apply nth_map_VNum_Some. now apply nth_fill.
  - split; cbn [col_cells]; [apply length_fill | intros i w; apply nth_fill].
Qed.

Lemma solo_rellena_refl P df : solo_rellena P df df.
Proof.
  repeat split; auto. intros n c H. exists c. split; [assumption | apply rellena_refl].
Qed.

Lemma solo_rellena_trans P a b c :
  solo_rellena P a b -> solo_rellena P b c -> solo_rellena P a c.
Proof.
  intros (N1 & R1 & F1 & C1) (N2 & R2 & F2 & C2). repeat split; try congruence.
  - intros n Hn. rewrite F2, F1; auto.
  - intros n col Hc. destruct (C1 n col Hc) as (c1 & H1 & Hr1).
    destruct (C2 n c1 H1) as (c2 & H2 & Hr2). exists c2.
    split; [assumption | eapply rellena_trans; eauto].
Qed.

Lemma solo_rellena_set (P : string -> Prop) df col c v :
  P col -> df_get df col = Some c -> solo_rellena P df (df_set df col (fillna c v)).
Proof.
  intros HP Hc. repeat split.
  - rewrite col_names_df_set. unfold has_col. rewrite Hc. apply app_nil_r.
  - intros n Hn. apply df_get_set_other. intros ->. contradiction.
  - intros n c0 H0. destruct (String.eqb_spec n col) as [->|Hne].
    + exists (fillna c v). split; [apply df_get_set_same|].
      replace c0 with c by congruence. apply fillna_rellena.
    + exists c0. split; [now rewrite df_get_set_other | apply rellena_refl].
Qed.

Lemma solo_rellena_weaken (P Q : string -> Prop) df df' :
  (forall n, P n -> Q n) -> solo_rellena P df df' -> solo_rellena Q df df'.
Proof.
  intros HPQ (N & R & F & C). repeat split; auto.
Qed.

Section CategoricasFrame.

Variables umbral_nulos_alto umbral_nulos_bajo : Q.
Variables umbral_moda_bajo umbral_moda_medio umbral_ventaja : Q.
Variable etiqueta_unknown : string.

Local Abbreviation paso :=
  (imputar_categoricas_col umbral_nulos_alto umbral_nulos_bajo
     umbral_moda_bajo umbral_moda_medio umbral_ventaja etiqueta_unknown).

Lemma paso_solo_rellena total df out col :
  solo_rellena (fun n => n = col) df (fst (paso total (df, out) col)).
Proof.
  destruct (paso_shape umbral_nulos_alto umbral_nulos_bajo umbral_moda_bajo
              umbral_moda_medio umbral_ventaja etiqueta_unknown total df out col)
    as [[_ ->]|(c & v & Hc & ->)].
  - apply solo_rellena_refl.
  - now apply solo_rellena_set.
Qed.

Lemma fold_solo_rellena total cols : forall st,
  solo_rellena (fun n => In n cols) (fst st) (fst (fold_left (paso total) cols st)).
Proof.
  induction cols as [|x cols IH]; intros [df out]; cbn [fold_left].
  - apply solo_rellena_refl.
  - eapply solo_rellena_trans.
    + eapply solo_rellena_weaken; [|apply (paso_solo_rellena total df out x)].
      intros n ->. now left.
    + eapply solo_rellena_weaken; [|apply IH]. intros n H. now right.
Qed.

Lemma imputar_categoricas_solo_rellena df columnas :
  solo_rellena (fun n => In n columnas) df
    (fst (imputar_categoricas umbral_nulos_alto umbral_nulos_bajo umbral_moda_bajo
            umbral_moda_medio umbral_ventaja etiqueta_unknown df columnas)).
Proof. apply (fold_solo_rellena (nrows df) columnas (df, [])). Qed.

End CategoricasFrame.











Section NumericasFrame.

Variables umbral_nulos_bajo umbral_nulos_alto : Q.
Variable n_neighbors : nat.
Variables crear_indicador_missing usar_knn_en_alto : bool.

Local Abbreviation paso_num :=
  (imputar_numericas_col umbral_nulos_bajo umbral_nulos_alto n_neighbors
     crear_indicador_missing usar_knn_en_alto).

Local Abbreviation llamada :=
  (imputar_numericas umbral_nulos_bajo umbral_nulos_alto n_neighbors
     crear_indicador_missing usar_knn_en_alto).









End NumericasFrame.

Section Marco.

Variables cat_nulos_alto cat_nulos_bajo cat_moda_bajo cat_moda_medio cat_ventaja : Q.
Variable etiqueta_unknown : string.
Variables umbral_nulos_bajo umbral_nulos_alto : Q.
Variable n_neighbors : nat.
Variables crear_indicador_missing usar_knn_en_alto : bool.


End Marco.

(* ------------------------------------------------------------------------ *)
(** ** The properties on the sample data *)



(** C1 on [df_texto]: the name [salary] is not a column. *)
Lemma C1_testigo :
  In "salary" ["age"; "salary"] /\
  has_col df_texto "salary" = false /\
  (imputar_numericas_default df_texto ["age"; "salary"] = Raise KeyError (df_texto, []) /\
   ~ In (MsgNumNoExiste "salary")
        (snd (estado (imputar_numericas_default df_texto ["age"; "salary"])))).
Proof.
  split; [simpl; auto|]. split; [reflexivity|].
  apply (C1_columna_ausente_KeyError (5 # 100) (20 # 100) 5 true false
           df_texto ["age"; "salary"] "salary"); [simpl; auto | reflexivity].
Defined.

(** C9 on [df_texto]: no requested name is a numeric column; the call
    returns when all of them are columns and raises when one is not. *)
Lemma C9_testigo :
  validas df_texto ["dept"] = [] /\
  validas df_texto ["dept"; "salary"] = [] /\
  imputar_numericas_default df_texto ["dept"] = Ok (df_texto, [MsgNumSinValidas]) /\
  imputar_numericas_default df_texto ["dept"; "salary"] = Raise KeyError (df_texto, []).
Proof.
  split; [reflexivity|]. split; [reflexivity|]. split.
  - apply (proj1 (C9_sin_columnas_validas (5 # 100) (20 # 100) 5 true false
                    df_texto ["dept"] eq_refl)). reflexivity.
  - apply (proj2 (C9_sin_columnas_validas (5 # 100) (20 # 100) 5 true false
                    df_texto ["dept"; "salary"] eq_refl) "salary");
      [simpl; auto | reflexivity].
Defined.



(** C10 on [df_vacio]. *)
Lemma C10_testigo :
  wf_df df_vacio /\
  nrows df_vacio = 0%nat /\
  0 <= 20 # 100 /\
  (imputar_categoricas_default df_vacio ["dept"; "zz"]
   = (df_vacio, flat_map (diagnostico_sin_filas "Unknown" df_vacio) ["dept"; "zz"])
   /\ forall nulos, porcentaje nulos (nrows df_vacio) = 0).
Proof.
  assert (Hwf : wf_df df_vacio).
  { split.
    - simpl. constructor; [simpl; intros [H|[]]; discriminate|].
      constructor; [simpl; tauto | constructor].
    - repeat constructor. }
  assert (Hq : 0 <= 20 # 100) by (unfold Qle; simpl; lia).
  split; [exact Hwf|]. split; [reflexivity|]. split; [exact Hq|].
  apply (C10_categoricas_sin_filas (20 # 100) (5 # 100) (50 # 100) (60 # 100) (20 # 100)
           "Unknown" df_vacio ["dept"; "zz"] Hwf eq_refl Hq).
Defined.


(** What the call does on [df_texto]: the gap of [dept] receives "A". *)
Example categoricas_df_texto :
  fst (imputar_categoricas_default df_texto ["dept"])
  = mkDF 5 [("dept", ColObj [Some (VStr "A"); Some (VStr "A"); Some (VStr "A");
                             Some (VStr "B"); Some (VStr "A")]);
            ("age", ColNum DInt64 [Some 30; Some 41; Some 25; Some 38; Some 52])].
Proof. vm_compute. reflexivity. Qed.



(** What the call does on [df_entero]: the median 5/2 is rounded to the
    even neighbour. *)
Example numericas_df_entero :
  imputar_numericas_default df_entero ["n"]
  = Ok (mkDF 4 [("n", ColNum DInt64Nullable [Some 1; Some 2; Some 2; Some 4]);
                ("t", ColObj [Some (VStr "w"); None; Some (VStr "y"); Some (VStr "z")]);
                ("n_missing", ColNum DInt64 [Some 0; Some 1; Some 1; Some 0])],
        [MsgNumAnalizando "n"]).
Proof. vm_compute. reflexivity. Qed.



(** The two categorical scenarios of the specification: 3 missing cells in
    100 with "A" 60 times and "B" 35 times are filled with "A"; 25 missing
    cells in 100 are filled with the label. *)
Example escenario_moda :
  df_get (fst (imputar_categoricas_default (df_escenario 60 35 2 3) ["x"])) "x"
  = Some (ColObj (repeat (Some (VStr "A")) 60 ++ repeat (Some (VStr "B")) 35
                  ++ repeat (Some (VStr "C")) 2 ++ repeat (Some (VStr "A")) 3)).
Proof. vm_compute. reflexivity. Qed.

Example escenario_etiqueta :
  df_get (fst (imputar_categoricas_default (df_escenario 50 23 2 25) ["x"])) "x"
  = Some (ColObj (repeat (Some (VStr "A")) 50 ++ repeat (Some (VStr "B")) 23
                  ++ repeat (Some (VStr "C")) 2 ++ repeat (Some (VStr "Unknown")) 25)).
Proof. vm_compute. reflexivity. Qed.

(** With the feature [x] three times in the context the distances are
    rational: the distance-weighted average of the specification's wording
    is 260/17 where the code writes 24. *)
Example knn_pesos :
  nth 2 (columna_knn_spec 5 [datos_x; datos_x; datos_x; datos_y] datos_y) 0 == 260 # 17
  /\ nth 2 (columna_knn 5 [datos_x; datos_x; datos_x; datos_y] datos_y) 0 == 24.
Proof. split; vm_compute; reflexivity. Qed.

(* ======================================================================== *)
(** * Further properties of the imputers *)

Section CategoricasMas.

Variables umbral_nulos_alto umbral_nulos_bajo : Q.
Variables umbral_moda_bajo umbral_moda_medio umbral_ventaja : Q.
Variable etiqueta_unknown : string.

Local Abbreviation paso :=
  (imputar_categoricas_col umbral_nulos_alto umbral_nulos_bajo
     umbral_moda_bajo umbral_moda_medio umbral_ventaja etiqueta_unknown).

Local Abbreviation decide :=
  (columna_categorica umbral_nulos_alto umbral_nulos_bajo
     umbral_moda_bajo umbral_moda_medio umbral_ventaja etiqueta_unknown).

Local Abbreviation llamada_cat :=
  (imputar_categoricas umbral_nulos_alto umbral_nulos_bajo
     umbral_moda_bajo umbral_moda_medio umbral_ventaja etiqueta_unknown).

Lemma paso_decide total df out col c :
  df_get df col = Some c ->
  fst (paso total (df, out) col) = df_set df col (decide total c).
Proof.
  intros Hc. unfold imputar_categoricas_col, columna_categorica. rewrite Hc.
  destruct (Qgt_bool _ _); [reflexivity|].
  destruct (value_counts (col_cells c)) as [|[v1 primero] resto]; [reflexivity|].
  destruct (_ && _); reflexivity.
Qed.

Lemma paso_ausente total df out col :
  df_get df col = None ->
  paso total (df, out) col = (df, (out ++ [MsgAnalizando col]) ++ [MsgNoExiste col]).
Proof. intros Hc. unfold imputar_categoricas_col. now rewrite Hc. Qed.

Lemma decide_shape total c : exists v, decide total c = fillna c v.
Proof.
  unfold columna_categorica.
  destruct (Qgt_bool _ _); [eauto|].
  destruct (value_counts (col_cells c)) as [|[v1 primero] resto]; [eauto|].
  destruct (_ && _); eauto.
Qed.

Lemma decide_completa total c : count_null (col_cells (decide total c)) = 0%nat.
Proof. destruct (decide_shape total c) as [v ->]. apply fillna_complete. Qed.

Lemma decide_sin_nulos total c :
  count_null (col_cells c) = 0%nat -> decide total c = c.
Proof. intros H. destruct (decide_shape total c) as [v ->]. now apply fillna_no_null. Qed.

Lemma paso_get_otro total df out x col :
  x <> col -> df_get (fst (paso total (df, out) x)) col = df_get df col.
Proof.
  intros Hne. destruct (df_get df x) as [c|] eqn:Hx.
  - rewrite (paso_decide total df out x c Hx). apply df_get_set_other. congruence.
  - now rewrite (paso_ausente total df out x Hx).
Qed.

Lemma paso_get_mismo total df out col :
  df_get (fst (paso total (df, out) col)) col = option_map (decide total) (df_get df col).
Proof.
  destruct (df_get df col) as [c|] eqn:Hc.
  - rewrite (paso_decide total df out col c Hc). apply df_get_set_same.
  - rewrite (paso_ausente total df out col Hc). cbn [fst option_map]. exact Hc.
Qed.

Lemma option_map_decide_idem total o :
  option_map (decide total) (option_map (decide total) o) = option_map (decide total) o.
Proof.
  destruct o as [c|]; [|reflexivity]. cbn [option_map]. f_equal.
  apply decide_sin_nulos, decide_completa.
Qed.

(** The column [col] after the loop over [cols]. *)
Lemma fold_paso_get total col cols : forall st,
  df_get (fst (fold_left (paso total) cols st)) col
  = if in_dec string_dec col cols
    then option_map (decide total) (df_get (fst st) col)
    else df_get (fst st) col.
Proof.
  induction cols as [|x cols IH]; intros [df out]; [reflexivity|].
  cbn [fold_left]. rewrite IH.
  destruct (string_dec x col) as [->|Hne].
  - rewrite paso_get_mismo. cbn [fst].
    destruct (in_dec string_dec col (col :: cols)) as [_|Hn]; [|exfalso; apply Hn; now left].
    destruct (in_dec string_dec col cols); [apply option_map_decide_idem | reflexivity].
  - rewrite (paso_get_otro total df out x col Hne). cbn [fst].
    destruct (in_dec string_dec col cols) as [Hi|Hi];
      destruct (in_dec string_dec col (x :: cols)) as [Hj|Hj]; try reflexivity.
    + exfalso. apply Hj. now right.
    + exfalso. destruct Hj as [Hj|Hj]; [congruence | contradiction].
Qed.


Lemma fold_paso_sin_cambios total cols : forall df out,
  (forall col c, In col cols -> df_get df col = Some c ->
                 count_null (col_cells c) = 0%nat) ->
  fst (fold_left (paso total) cols (df, out)) = df.
Proof.
  induction cols as [|x cols IH]; intros df out Hall; [reflexivity|].
  cbn [fold_left].
  assert (Hstep : fst (paso total (df, out) x) = df).
  { destruct (df_get df x) as [c|] eqn:Hx.
    - rewrite (paso_decide total df out x c Hx).
      rewrite decide_sin_nulos by (apply (Hall x c); [now left | assumption]).
      now apply df_set_get_id.
    - now rewrite (paso_ausente total df out x Hx). }
  destruct (paso total (df, out) x) as [df' out'] eqn:E. cbn [fst] in Hstep. subst df'.
  apply IH. intros col c Hin. apply Hall. now right.
Qed.

(** X2 (P7 of the specification).  On a frame whose requested columns
    have no missing cell the call changes nothing; in particular a second
    call with the same list leaves the result of the first as it is. *)
Theorem X2_categoricas_idempotente (df : DataFrame) (columnas : list string) :
  ((forall col c, In col columnas -> df_get df col = Some c ->
                  count_null (col_cells c) = 0%nat) ->
   fst (llamada_cat df columnas) = df)
  /\ fst (llamada_cat (fst (llamada_cat df columnas)) columnas)
     = fst (llamada_cat df columnas).
Proof.
  split.
  - intros Hall. now apply fold_paso_sin_cambios.
  - apply fold_paso_sin_cambios. intros col c Hin Hc.
    unfold imputar_categoricas in Hc. rewrite fold_paso_get in Hc. cbn [fst] in Hc.
    destruct (in_dec string_dec col columnas); [|contradiction].
    destruct (df_get df col) as [c0|]; [|discriminate].
    injection Hc as <-. apply decide_completa.
Qed.












End CategoricasMas.

Section NumericasMas.

Variables umbral_nulos_bajo umbral_nulos_alto : Q.
Variable n_neighbors : nat.
Variables crear_indicador_missing usar_knn_en_alto : bool.

Local Abbreviation paso_num :=
  (imputar_numericas_col umbral_nulos_bajo umbral_nulos_alto n_neighbors
     crear_indicador_missing usar_knn_en_alto).

Local Abbreviation llamada :=
  (imputar_numericas umbral_nulos_bajo umbral_nulos_alto n_neighbors
     crear_indicador_missing usar_knn_en_alto).

(** What the median block does when it returns. *)
Lemma imputar_mediana_inv st col st' :
  imputar_mediana st col = Ok st' ->
  exists xs,
    num_cells (fst st) col = Some xs /\ present xs <> [] /\
    st' = (df_set (fst st) col (ColNum DFloat64 (fill (median xs) xs)), snd st).
Proof.
  unfold imputar_mediana. destruct (num_cells (fst st) col) as [xs|]; [|discriminate].
  destruct (mediana_fit_transform xs) as [ys|] eqn:E; [|discriminate].
  intros [= <-]. apply mediana_fit_transform_Some in E as (-> & _ & Hp).
  exists xs. auto.
Qed.

(** What the nearest-neighbour block does when it returns. *)
Lemma imputar_knn_inv ctx st col st' :
  imputar_knn n_neighbors ctx st col = Ok st' ->
  exists X xs,
    num_table (fst st) ctx = Some X /\ num_cells (fst st) col = Some xs /\
    n_neighbors <> 0%nat /\ (forall f, In f X -> present f <> []) /\ In col ctx /\
    st' = (df_set (fst st) col
             (ColNum DFloat64 (map Some (columna_knn n_neighbors X xs))), snd st).
Proof.
  unfold imputar_knn.
  destruct (num_table (fst st) ctx) as [X|]; [|discriminate].
  destruct (num_cells (fst st) col) as [xs|]; [|discriminate].
  destruct (nrows (fst st) =? 0)%nat; [discriminate|].
  destruct (Nat.eqb_spec n_neighbors 0) as [|Hk]; [discriminate|].
  destruct (existsb _ X) eqn:E; [discriminate|].
  destruct (existsb (String.eqb col) ctx) eqn:Ec; cbn [negb]; [|discriminate].
  intros [= <-]. exists X, xs. repeat split; auto.
  - intros f Hf Hp. rewrite <- Bool.not_true_iff_false in E. apply E.
    apply existsb_exists. exists f. split; [assumption|]. now rewrite Hp.
  - apply existsb_exists in Ec as (y & Hy & Ey). apply String.eqb_eq in Ey. now subst.
Qed.

(** The two ways in which the body of the loop ends well: the column is
    written from its own numbers, after the indicator if there is one. *)
Lemma paso_num_inv total ctx df out x st' :
  paso_num total ctx (df, out) x = Ok st' ->
  exists c df1 xs ys,
    df_get df x = Some c /\
    (df1 = df \/
     (crear_indicador_missing = true /\
      df1 = df_set df (x ++ "_missing") (indicador_missing c))) /\
    num_cells df1 x = Some xs /\
    ((present xs <> [] /\ ys = fill (median xs) xs) \/
     (exists X, num_table df1 ctx = Some X /\ n_neighbors <> 0%nat /\
                (forall f, In f X -> present f <> []) /\ In x ctx /\
                ys = map Some (columna_knn n_neighbors X xs))) /\
    st' = (df_set df1 x (ColNum DFloat64 ys), out ++ [MsgNumAnalizando x]).
Proof.
  unfold imputar_numericas_col. destruct (df_get df x) as [c|] eqn:Hc; [|discriminate].
  assert (Hmed : forall df1, imputar_mediana (df1, out ++ [MsgNumAnalizando x]) x = Ok st' ->
            exists xs ys, num_cells df1 x = Some xs /\
              ((present xs <> [] /\ ys = fill (median xs) xs) \/
               (exists X, num_table df1 ctx = Some X /\ n_neighbors <> 0%nat /\
                          (forall f, In f X -> present f <> []) /\ In x ctx /\
                          ys = map Some (columna_knn n_neighbors X xs))) /\
              st' = (df_set df1 x (ColNum DFloat64 ys), out ++ [MsgNumAnalizando x])).
  { intros df1 H. apply imputar_mediana_inv in H as (xs & Hn & Hp & ->).
    exists xs, (fill (median xs) xs). cbn [fst snd] in *. auto. }
  assert (Hknn : forall df1,
            imputar_knn n_neighbors ctx (df1, out ++ [MsgNumAnalizando x]) x = Ok st' ->
            exists xs ys, num_cells df1 x = Some xs /\
              ((present xs <> [] /\ ys = fill (median xs) xs) \/
               (exists X, num_table df1 ctx = Some X /\ n_neighbors <> 0%nat /\
                          (forall f, In f X -> present f <> []) /\ In x ctx /\
                          ys = map Some (columna_knn n_neighbors X xs))) /\
              st' = (df_set df1 x (ColNum DFloat64 ys), out ++ [MsgNumAnalizando x])).
  { intros df1 H. apply imputar_knn_inv in H as (X & xs & HX & Hn & Hk & Hp & Hin & ->).
    exists xs, (map Some (columna_knn n_neighbors X xs)). cbn [fst snd] in *.
    split; [assumption|]. split; [right; exists X; auto | reflexivity]. }
  destruct (Qle_bool _ umbral_nulos_bajo).
  { intros H. destruct (Hmed df H) as (xs & ys & H1 & H2 & H3).
    exists c, df, xs, ys. auto. }
  destruct (Qle_bool _ umbral_nulos_alto).
  { intros H. destruct (Hknn df H) as (xs & ys & H1 & H2 & H3).
    exists c, df, xs, ys. auto. }
  destruct crear_indicador_missing; destruct usar_knn_en_alto; intros H.
  - destruct (Hknn _ H) as (xs & ys & H1 & H2 & H3).
    exists c, (df_set df (x ++ "_missing") (indicador_missing c)), xs, ys.
    split; [reflexivity|]. split; [right; split; reflexivity | auto].
  - destruct (Hmed _ H) as (xs & ys & H1 & H2 & H3).
    exists c, (df_set df (x ++ "_missing") (indicador_missing c)), xs, ys.
    split; [reflexivity|]. split; [right; split; reflexivity | auto].
  - destruct (Hknn _ H) as (xs & ys & H1 & H2 & H3). exists c, df, xs, ys. auto.
  - destruct (Hmed _ H) as (xs & ys & H1 & H2 & H3). exists c, df, xs, ys. auto.
Qed.

Lemma count_null_columna ys xs X :
  ys = fill (median xs) xs \/ ys = map Some (columna_knn n_neighbors X xs) ->
  count_null ys = 0%nat.
Proof. intros [-> | ->]; [apply count_null_fill | apply count_null_map_Some]. Qed.

Lemma indicador_missing_completa df n c :
  numerica_completa (df_set df n (indicador_missing c)) n.
Proof.
  exists DInt64, (map (fun x => Some (if isnull x then 1 else 0)) (col_cells c)).
  split; [apply df_get_set_same|].
  unfold count_null. induction (col_cells c) as [|x l IH]; simpl; auto.
Qed.

Lemma paso_num_completa total ctx df out x st' col :
  paso_num total ctx (df, out) x = Ok st' ->
  x = col \/ numerica_completa df col ->
  numerica_completa (fst st') col.
Proof.
  intros H Hcase.
  apply paso_num_inv in H as (c & df1 & xs & ys & Hc & Hdf1 & Hn & Hys & ->).
  cbn [fst].
  assert (Hz : count_null ys = 0%nat).
  { destruct Hys as [[_ ->]|(X & _ & _ & _ & _ & ->)];
      [apply count_null_fill | apply count_null_map_Some]. }
  destruct (String.eqb_spec x col) as [->|Hne].
  - exists DFloat64, ys. split; [apply df_get_set_same | assumption].
  - destruct Hcase as [?|Hcol]; [congruence|].
    assert (H1 : numerica_completa df1 col).
    { destruct Hdf1 as [->|[_ ->]]; [assumption|].
      destruct (String.eqb_spec col (x ++ "_missing")) as [->|Hne2].
      - apply indicador_missing_completa.
      - destruct Hcol as (dt & zs & Hg & Hzs). exists dt, zs.
        split; [now rewrite df_get_set_other | assumption]. }
    destruct H1 as (dt & zs & Hg & Hzs). exists dt, zs.
    split; [rewrite df_get_set_other; [assumption | congruence] | assumption].
Qed.

Lemma for_each_completa total ctx col cols : forall st st',
  for_each (paso_num total ctx) cols st = Ok st' ->
  In col cols \/ numerica_completa (fst st) col ->
  numerica_completa (fst st') col.
Proof.
  induction cols as [|x cols IH]; intros [df out] st' H Hcase; cbn [for_each] in H.
  - injection H as <-. destruct Hcase as [[]|Hc]. exact Hc.
  - destruct (paso_num total ctx (df, out) x) as [st1|e st1] eqn:E; [|discriminate].
    apply (IH st1 st' H).
    destruct (String.eqb_spec x col) as [->|Hne].
    + right. eapply paso_num_completa; [exact E | now left].
    + destruct Hcase as [[Hx|Hin]|Hc]; [congruence | now left | right].
      eapply paso_num_completa; [exact E | now right].
Qed.

Lemma count_null_map_option {A B} (f : A -> B) (xs : list (option A)) :
  count_null (map (option_map f) xs) = count_null xs.
Proof. unfold count_null. induction xs as [|[x|] xs IH]; simpl; auto. Qed.

Lemma restaurar_entero_completa orig df x col :
  numerica_completa df col -> numerica_completa (restaurar_entero orig df x) col.
Proof.
  intros (dt & ys & Hc & Hz).
  destruct (String.eqb_spec x col) as [->|Hne].
  - unfold restaurar_entero, num_cells. rewrite Hc.
    destruct (df_get orig col) as [c0|]; [|exists dt, ys; auto].
    destruct (is_integer_dtype c0); [|exists dt, ys; auto].
    eexists _, _. split; [apply df_get_set_same|].
    now rewrite count_null_map_option.
  - exists dt, ys. split; [|assumption].
    rewrite (escrituras_frame _ _ _ col (restaurar_entero_escrituras orig df x));
      [assumption | congruence].
Qed.

Lemma fold_restaurar_completa orig col cols : forall df,
  numerica_completa df col ->
  numerica_completa (fold_left (restaurar_entero orig) cols df) col.
Proof.
  induction cols as [|x cols IH]; intros df H; cbn [fold_left]; [assumption|].
  apply IH. now apply restaurar_entero_completa.
Qed.

(** X5 (P2 of the specification).  When [imputar_numericas] returns,
    every requested numeric column is a numeric column without missing
    cells. *)
Theorem X5_numericas_completa (df df' : DataFrame) (out : list Msg)
        (columnas : list string) (col : string) :
  llamada df columnas = Ok (df', out) ->
  In col columnas ->
  es_numerica df col ->
  exists dt ys, df_get df' col = Some (ColNum dt ys) /\ count_null ys = 0%nat.
Proof.
  intros Hcall Hin Hnum.
  pose proof (validas_In df columnas col Hin Hnum) as Hval.
  revert Hcall. unfold imputar_numericas. fold (validas df columnas).
  destruct (negb (forallb (has_col df) columnas)); [discriminate|].
  destruct (validas df columnas) as [|v vs] eqn:Ev; [destruct Hval|].
  destruct (for_each _ (v :: vs) _) as [[dfk outk]|e st'] eqn:E; [|discriminate].
  intros [= <- <-]. apply (fold_restaurar_completa df col (v :: vs) dfk).
  exact (for_each_completa _ _ col (v :: vs) _ (dfk, outk) E (or_introl Hval)).
Qed.

(** *** Frames and columns the numeric imputer cannot treat *)

Lemma imputar_knn_sin_filas ctx st col :
  nrows (fst st) = 0%nat -> imputar_knn n_neighbors ctx st col = Raise ValueError st.
Proof.
  intros H0. unfold imputar_knn.
  destruct (num_table (fst st) ctx); [|reflexivity].
  destruct (num_cells (fst st) col); [|reflexivity].
  now rewrite H0.
Qed.

Lemma imputar_mediana_sin_valores st col xs :
  num_cells (fst st) col = Some xs -> present xs = [] ->
  imputar_mediana st col = Raise ValueError st.
Proof.
  intros Hn Hp. unfold imputar_mediana, mediana_fit_transform. rewrite Hn, Hp.
  now destruct xs.
Qed.

Lemma imputar_knn_sin_valores ctx st col xs st' :
  num_cells (fst st) col = Some xs -> present xs = [] ->
  imputar_knn n_neighbors ctx st col <> Ok st'.
Proof.
  intros Hn Hp H. apply imputar_knn_inv in H as (X & xs' & HX & Hn' & _ & Hall & Hin & _).
  rewrite Hn in Hn'. injection Hn' as <-.
  apply (Hall xs); [|assumption]. eapply num_table_In; eauto.
Qed.

Lemma num_cells_indicador df x c col :
  col <> (x ++ "_missing")%string ->
  num_cells (df_set df (x ++ "_missing") (indicador_missing c)) col = num_cells df col.
Proof. intros Hne. unfold num_cells. now rewrite df_get_set_other. Qed.

Lemma paso_num_sin_filas total ctx df out v dt :
  nrows df = 0%nat -> df_get df v = Some (ColNum dt []) ->
  exists df1, paso_num total ctx (df, out) v
              = Raise ValueError (df1, out ++ [MsgNumAnalizando v]).
Proof.
  intros H0 Hc. unfold imputar_numericas_col. rewrite Hc.
  assert (Hn : num_cells df v = Some []) by (unfold num_cells; now rewrite Hc).
  destruct (Qle_bool _ umbral_nulos_bajo).
  { exists df. now apply (imputar_mediana_sin_valores (df, _) v []). }
  destruct (Qle_bool _ umbral_nulos_alto).
  { exists df. now apply imputar_knn_sin_filas. }
  set (df1 := if crear_indicador_missing then _ else df).
  assert (H1 : nrows df1 = 0%nat) by (unfold df1; now destruct crear_indicador_missing).
  assert (H2 : num_cells df1 v = Some []).
  { unfold df1. destruct crear_indicador_missing; [|assumption].
    rewrite num_cells_indicador; [assumption | apply append_neq_self]. }
  exists df1. destruct usar_knn_en_alto.
  - now apply imputar_knn_sin_filas.
  - now apply (imputar_mediana_sin_valores (df1, _) v []).
Qed.

(** X6.  On a frame without rows, as soon as one requested name is a
    numeric column (and all requested names are columns), the call raises
    [ValueError] at the first of them: neither the median nor the
    nearest-neighbour block accepts a table without rows, where
    [imputar_categoricas] returns. *)
Theorem X6_numericas_sin_filas (df : DataFrame) (columnas : list string) :
  wf_df df ->
  nrows df = 0%nat ->
  forallb (has_col df) columnas = true ->
  validas df columnas <> [] ->
  exists df',
    llamada df columnas
    = Raise ValueError (df', [MsgNumAnalizando (hd "" (validas df columnas))]).
Proof.
  intros Hwf H0 Hall Hne. unfold imputar_numericas. fold (validas df columnas).
  rewrite Hall. cbn [negb].
  rewrite (filter_negb_forallb (has_col df) columnas Hall). cbn [map].
  destruct (validas df columnas) as [|v vs] eqn:Ev; [congruence|].
  assert (Hv : In v (validas df columnas)) by (rewrite Ev; now left).
  apply In_validas in Hv as [_ (dt & xs & Hc)].
  assert (Hxs : xs = []).
  { pose proof (wf_col_len df v _ Hwf Hc) as Hl. cbn [col_len] in Hl.
    rewrite H0 in Hl. now apply length_zero_iff_nil. }
  subst xs. cbn [for_each hd].
  destruct (paso_num_sin_filas (nrows df) (select_numeric df) df [] v dt H0 Hc)
    as [df1 E].
  rewrite E. exists df1. reflexivity.
Qed.

Lemma paso_num_columna_sin_valores total ctx df out col dt xs st' :
  df_get df col = Some (ColNum dt xs) -> present xs = [] ->
  paso_num total ctx (df, out) col <> Ok st'.
Proof.
  intros Hc Hp H. apply paso_num_inv in H as (c & df1 & xs' & ys & Hc' & Hdf1 & Hn & Hys & _).
  assert (Hxs : xs' = xs).
  { destruct Hdf1 as [->|[_ ->]].
    - unfold num_cells in Hn. rewrite Hc in Hn. congruence.
    - rewrite num_cells_indicador in Hn by apply append_neq_self.
      unfold num_cells in Hn. rewrite Hc in Hn. congruence. }
  subst xs'. destruct Hys as [[Hne _]|(X & HX & _ & Hall & Hin & _)]; [contradiction|].
  apply (Hall xs); [|assumption]. eapply num_table_In; eauto.
Qed.

Lemma for_each_columna_sin_valores total ctx col dt xs cols : forall st st',
  present xs = [] ->
  In col cols ->
  (forall x, In x cols -> (x ++ "_missing")%string <> col) ->
  df_get (fst st) col = Some (ColNum dt xs) ->
  for_each (paso_num total ctx) cols st <> Ok st'.
Proof.
  induction cols as [|x cols IH]; intros [df out] st' Hp Hin Hni Hc; [destruct Hin|].
  cbn [for_each]. cbn [fst] in Hc.
  destruct (paso_num total ctx (df, out) x) as [st1|e st1] eqn:E; [|discriminate].
  destruct (String.eqb_spec x col) as [->|Hne].
  - exfalso. eapply paso_num_columna_sin_valores; eauto.
  - destruct Hin as [?|Hin]; [congruence|].
    apply IH; auto.
    + intros y Hy. apply Hni. now right.
    + pose proof (paso_num_escrituras umbral_nulos_bajo umbral_nulos_alto n_neighbors
                    crear_indicador_missing usar_knn_en_alto total ctx df out x) as He.
      rewrite E in He. cbn [estado] in He.
      rewrite (escrituras_frame _ _ _ col He); [assumption|].
      intros [H|H]; [congruence|]. apply (Hni x); [now left | congruence].
Qed.

(** X7.  A requested numeric column without any observed value (and
    whose name is not the indicator name of a requested column) keeps the
    call from returning: the median block and the nearest-neighbour block
    both raise on it. *)
Theorem X7_numericas_columna_sin_valores (df : DataFrame) (columnas : list string)
        (col : string) (dt : NumDtype) (xs : list (option Q)) :
  In col columnas ->
  df_get df col = Some (ColNum dt xs) ->
  present xs = [] ->
  ~ indicador_de columnas col ->
  forall st, llamada df columnas <> Ok st.
Proof.
  intros Hin Hc Hp Hni st.
  assert (Hval : In col (validas df columnas))
    by (apply validas_In; [assumption | now exists dt, xs]).
  unfold imputar_numericas. fold (validas df columnas).
  destruct (negb (forallb (has_col df) columnas)); [discriminate|].
  destruct (validas df columnas) as [|v vs] eqn:Ev; [destruct Hval|].
  destruct (for_each _ (v :: vs) _) as [[dfk outk]|e st'] eqn:E; [|discriminate].
  exfalso.
  apply (for_each_columna_sin_valores (nrows df) (select_numeric df) col dt xs (v :: vs)
           _ (dfk, outk) Hp Hval) in E; [assumption | | assumption].
  intros x Hx Heq. apply Hni. exists x. split; [|now symmetry].
  rewrite <- Ev in Hx. now apply In_validas in Hx as [Hx _].
Qed.

(** *** Without indicators *)

Lemma paso_num_escrituras_crear total ctx df out col :
  escrituras (fun n => n = col \/
                       (crear_indicador_missing = true /\ n = (col ++ "_missing")%string))
             df (fst (estado (paso_num total ctx (df, out) col))).
Proof.
  unfold imputar_numericas_col.
  destruct (df_get df col) as [c|]; [|constructor].
  destruct (Qle_bool _ umbral_nulos_bajo).
  { eapply escrituras_weaken; [|apply (imputar_mediana_escrituras (df, _) col)]. auto. }
  destruct (Qle_bool _ umbral_nulos_alto).
  { eapply escrituras_weaken;
      [|apply (imputar_knn_escrituras n_neighbors ctx (df, _) col)]. auto. }
  set (df1 := if crear_indicador_missing then _ else df).
  assert (H1 : escrituras (fun n => n = col \/
                 (crear_indicador_missing = true /\ n = (col ++ "_missing")%string))
                 df df1).
  { unfold df1. destruct crear_indicador_missing; [|constructor].
    apply escrituras_one; auto. }
  eapply escrituras_trans; [exact H1|].
  destruct usar_knn_en_alto.
  - eapply escrituras_weaken;
      [|apply (imputar_knn_escrituras n_neighbors ctx (df1, _) col)]. auto.
  - eapply escrituras_weaken; [|apply (imputar_mediana_escrituras (df1, _) col)]. auto.
Qed.

Lemma for_each_escrituras_crear total ctx cols : forall st,
  escrituras (fun n => In n cols \/ crear_indicador_missing = true)
             (fst st) (fst (estado (for_each (paso_num total ctx) cols st))).
Proof.
  induction cols as [|x cols IH]; intros [df out]; cbn [for_each]; [constructor|].
  pose proof (paso_num_escrituras_crear total ctx df out x) as H1.
  destruct (paso_num total ctx (df, out) x) as [st'|e st'] eqn:E; cbn [estado] in *.
  - eapply escrituras_trans.
    + eapply escrituras_weaken; [|exact H1].
      intros n [-> | [Hc _]]; [left; now left | now right].
    + eapply escrituras_weaken; [|apply IH].
      intros n [H|H]; [left; now right | now right].
  - eapply escrituras_weaken; [|exact H1].
    intros n [-> | [Hc _]]; [left; now left | now right].
Qed.

(** X8.  With [crear_indicador_missing] off the call, returned or raised,
    adds no column: the labels of the frame are those of entry, in the
    same order, and only requested numeric columns may differ. *)
Theorem X8_numericas_sin_indicador (df : DataFrame) (columnas : list string) :
  crear_indicador_missing = false ->
  col_names (fst (estado (llamada df columnas))) = col_names df
  /\ forall n, ~ (In n columnas /\ es_numerica df n) ->
               df_get (fst (estado (llamada df columnas))) n = df_get df n.
Proof.
  intros Hcrear.
  assert (He : escrituras (fun n => In n (validas df columnas)) df
                 (fst (estado (llamada df columnas)))).
  { unfold imputar_numericas. fold (validas df columnas).
    destruct (negb (forallb (has_col df) columnas)); [constructor|].
    destruct (validas df columnas) as [|v vs] eqn:Ev; [constructor|].
    pose proof (for_each_escrituras_crear (nrows df) (select_numeric df) (v :: vs)
                  (df, map MsgNumNoExiste
                         (filter (fun c => negb (has_col df c)) columnas))) as H.
    assert (H' : escrituras (fun n => In n (v :: vs)) df
                   (fst (estado (for_each (paso_num (nrows df) (select_numeric df))
                      (v :: vs)
                      (df, map MsgNumNoExiste
                             (filter (fun c => negb (has_col df c)) columnas)))))).
    { eapply escrituras_weaken; [|exact H]. intros n [Hn|Hn]; [assumption | congruence]. }
    destruct (for_each _ (v :: vs) _) as [[dfk outk]|e st'] eqn:E; cbn [estado fst] in *;
      [|assumption].
    eapply escrituras_trans; [exact H'|]. apply fold_restaurar_escrituras. }
  split.
  - destruct (escrituras_names _ _ _ He) as (nuevos & Hn & Hall).
    destruct nuevos as [|n nuevos]; [now rewrite app_nil_r in Hn|].
    exfalso. inversion Hall as [|? ? [Hv Hno] _]; subst.
    apply In_validas in Hv as [_ (dt & xs & Ec)]. unfold has_col in Hno.
    now rewrite Ec in Hno.
  - intros n Hn. apply (escrituras_frame _ _ _ n He).
    intros Hv. apply Hn. now apply In_validas.
Qed.

End NumericasMas.

(* ------------------------------------------------------------------------ *)
(** ** Range of the imputed values *)
















Section Rango.

Variables umbral_nulos_bajo umbral_nulos_alto : Q.
Variable n_neighbors : nat.
Variables crear_indicador_missing usar_knn_en_alto : bool.

Local Abbreviation paso_num :=
  (imputar_numericas_col umbral_nulos_bajo umbral_nulos_alto n_neighbors
     crear_indicador_missing usar_knn_en_alto).

Local Abbreviation llamada :=
  (imputar_numericas umbral_nulos_bajo umbral_nulos_alto n_neighbors
     crear_indicador_missing usar_knn_en_alto).







End Rango.

(* ------------------------------------------------------------------------ *)
(** ** Where the numeric imputer can raise [KeyError] *)

Lemma forallb_false_ex {A} (f : A -> bool) l :
  forallb f l = false -> exists x, In x l /\ f x = false.
Proof.
  induction l as [|x l IH]; cbn [forallb]; [discriminate|].
  destruct (f x) eqn:E; cbn [andb].
  - intros H. destruct (IH H) as (y & Hy & Ey). exists y. split; [now right | assumption].
  - intros _. exists x. split; [now left | assumption].
Qed.

Section NumericasErrores.

Variables umbral_nulos_bajo umbral_nulos_alto : Q.
Variable n_neighbors : nat.
Variables crear_indicador_missing usar_knn_en_alto : bool.

Local Abbreviation paso_num :=
  (imputar_numericas_col umbral_nulos_bajo umbral_nulos_alto n_neighbors
     crear_indicador_missing usar_knn_en_alto).

Local Abbreviation llamada :=
  (imputar_numericas umbral_nulos_bajo umbral_nulos_alto n_neighbors
     crear_indicador_missing usar_knn_en_alto).

Lemma imputar_mediana_no_KeyError st col st' :
  imputar_mediana st col <> Raise KeyError st'.
Proof.
  unfold imputar_mediana. destruct (num_cells (fst st) col) as [xs|]; [|discriminate].
  destruct (mediana_fit_transform xs); discriminate.
Qed.

Lemma imputar_knn_KeyError ctx st col st' :
  imputar_knn n_neighbors ctx st col = Raise KeyError st' ->
  existsb (String.eqb col) ctx = false.
Proof.
  unfold imputar_knn.
  destruct (num_table (fst st) ctx) as [X|]; [|discriminate].
  destruct (num_cells (fst st) col) as [xs|]; [|discriminate].
  destruct (nrows (fst st) =? 0)%nat; [discriminate|].
  destruct (n_neighbors =? 0)%nat; [discriminate|].
  destruct (existsb (fun f => (length (present f) =? 0)%nat) X); [discriminate|].
  destruct (existsb (String.eqb col) ctx); cbn [negb]; [discriminate | reflexivity].
Qed.

Lemma paso_num_KeyError total ctx df out x st' :
  paso_num total ctx (df, out) x = Raise KeyError st' ->
  has_col df x = false \/ existsb (String.eqb x) ctx = false.
Proof.
  unfold imputar_numericas_col, has_col. destruct (df_get df x) as [c|]; [|now left].
  intros H. right.
  destruct (Qle_bool _ umbral_nulos_bajo); [now apply imputar_mediana_no_KeyError in H|].
  destruct (Qle_bool _ umbral_nulos_alto); [now apply imputar_knn_KeyError in H|].
  destruct usar_knn_en_alto;
    [now apply imputar_knn_KeyError in H | now apply imputar_mediana_no_KeyError in H].
Qed.

Lemma for_each_KeyError total ctx cols : forall st st',
  for_each (paso_num total ctx) cols st = Raise KeyError st' ->
  exists x, In x cols /\
            (has_col (fst st) x = false \/ existsb (String.eqb x) ctx = false).
Proof.
  induction cols as [|x cols IH]; intros [df out] st' H; cbn [for_each] in H;
    [discriminate|].
  destruct (paso_num total ctx (df, out) x) as [st1|e st1] eqn:E.
  - destruct (IH st1 st' H) as (y & Hy & Hcase). exists y. split; [now right|].
    destruct Hcase as [Hc|Hc]; [left | now right].
    cbn [fst]. destruct (has_col df y) eqn:Ey; [|reflexivity].
    pose proof (paso_num_escrituras umbral_nulos_bajo umbral_nulos_alto n_neighbors
                  crear_indicador_missing usar_knn_en_alto total ctx df out x) as He.
    rewrite E in He. cbn [estado] in He.
    rewrite (escrituras_has_col _ _ _ y He Ey) in Hc. discriminate.
  - injection H as -> ->. exists x. split; [now left|]. cbn [fst].
    eapply paso_num_KeyError; eauto.
Qed.

Lemma llamada_KeyError_inv df columnas st :
  llamada df columnas = Raise KeyError st ->
  st = (df, []) /\ exists c, In c columnas /\ has_col df c = false.
Proof.
  unfold imputar_numericas. fold (validas df columnas).
  destruct (forallb (has_col df) columnas) eqn:Hall; cbn [negb].
  - destruct (validas df columnas) as [|v vs] eqn:Ev; [discriminate|].
    destruct (for_each _ (v :: vs) _) as [[dfk outk]|e st'] eqn:E; [discriminate|].
    intros [= -> ->]. exfalso.
    apply for_each_KeyError in E as (x & Hx & Hcase). cbn [fst] in Hcase.
    rewrite <- Ev in Hx. unfold validas in Hx. apply filter_In in Hx as [Hx Hctx].
    apply filter_In in Hx as [Hx Hnum].
    destruct Hcase as [Hc|Hc]; [|congruence].
    rewrite forallb_forall in Hall. rewrite (Hall x Hx) in Hc. discriminate.
  - intros [= <-]. split; [reflexivity|]. now apply forallb_false_ex.
Qed.


(** *** Numeric columns after a call that returns *)

Lemma paso_num_sin_nulos total ctx df out x st' n :
  paso_num total ctx (df, out) x = Ok st' ->
  x = n \/ numerica_sin_nulos df n ->
  numerica_sin_nulos (fst st') n.
Proof.
  intros H Hcase.
  apply (paso_num_inv umbral_nulos_bajo umbral_nulos_alto n_neighbors
           crear_indicador_missing usar_knn_en_alto) in H
    as (c & df1 & xs & ys & Hc & Hdf1 & Hn & Hys & ->).
  cbn [fst]. intros c' Hc' Hnum.
  destruct (String.eqb_spec n x) as [->|Hne].
  - rewrite df_get_set_same in Hc'. injection Hc' as <-. cbn [col_cells].
    rewrite count_null_map_VNum.
    destruct Hys as [[_ ->]|(X & _ & _ & _ & _ & ->)];
      [apply count_null_fill | apply count_null_map_Some].
  - rewrite df_get_set_other in Hc' by assumption.
    destruct Hcase as [->|Hsn]; [congruence|].
    destruct Hdf1 as [->|[_ ->]]; [now apply Hsn|].
    destruct (String.eqb_spec n (x ++ "_missing")) as [->|Hne'].
    + rewrite df_get_set_same in Hc'. injection Hc' as <-.
      unfold indicador_missing. cbn [col_cells]. rewrite count_null_map_VNum.
      unfold count_null. induction (col_cells c) as [|y l IH]; cbn; auto.
    + rewrite df_get_set_other in Hc' by assumption. now apply Hsn.
Qed.

Lemma for_each_sin_nulos total ctx n cols : forall st st',
  for_each (paso_num total ctx) cols st = Ok st' ->
  In n cols \/ numerica_sin_nulos (fst st) n ->
  numerica_sin_nulos (fst st') n.
Proof.
  induction cols as [|x cols IH]; intros [df out] st' H Hcase; cbn [for_each] in H.
  - injection H as <-. destruct Hcase as [[]|Hc]. exact Hc.
  - destruct (paso_num total ctx (df, out) x) as [st1|e st1] eqn:E; [|discriminate].
    apply (IH st1 st' H).
    destruct (String.eqb_spec x n) as [->|Hne].
    + right. apply (paso_num_sin_nulos total ctx df out n st1 n E). now left.
    + destruct Hcase as [[?|Hin]|Hsn]; [congruence | now left | right].
      apply (paso_num_sin_nulos total ctx df out x st1 n E). now right.
Qed.

Lemma restaurar_entero_sin_nulos orig df x n :
  numerica_sin_nulos df n -> numerica_sin_nulos (restaurar_entero orig df x) n.
Proof.
  intros Hsn. unfold restaurar_entero.
  destruct (df_get orig x) as [c0|]; [|assumption].
  destruct (is_integer_dtype c0); [|assumption].
  destruct (num_cells df x) as [xs|] eqn:En; [|assumption].
  intros c Hc Hnum. destruct (String.eqb_spec n x) as [->|Hne].
  - rewrite df_get_set_same in Hc. injection Hc as <-. unfold round_Int64.
    cbn [col_cells]. rewrite count_null_map_VNum, count_null_map_option.
    unfold num_cells in En. destruct (df_get df x) as [[dt ys|ys]|] eqn:Ex;
      try discriminate.
    injection En as ->. specialize (Hsn _ Ex eq_refl). cbn [col_cells] in Hsn.
    now rewrite count_null_map_VNum in Hsn.
  - rewrite df_get_set_other in Hc by assumption. now apply Hsn.
Qed.

Lemma fold_restaurar_sin_nulos orig n cols : forall df,
  numerica_sin_nulos df n ->
  numerica_sin_nulos (fold_left (restaurar_entero orig) cols df) n.
Proof.
  induction cols as [|x cols IH]; intros df H; cbn [fold_left]; [assumption|].
  apply IH. now apply restaurar_entero_sin_nulos.
Qed.

Lemma llamada_sin_nulos df columnas df' out n :
  llamada df columnas = Ok (df', out) ->
  (In n columnas /\ es_numerica df n) \/ numerica_sin_nulos df n ->
  numerica_sin_nulos df' n.
Proof.
  intros H Hcase.
  assert (Hcase' : In n (validas df columnas) \/ numerica_sin_nulos df n).
  { destruct Hcase as [[Hin Hnum]|Hsn]; [left; now apply validas_In | now right]. }
  clear Hcase. unfold imputar_numericas in H. fold (validas df columnas) in H.
  destruct (negb (forallb (has_col df) columnas)); [discriminate|].
  destruct (validas df columnas) as [|v vs] eqn:Ev.
  { injection H as <- _. destruct Hcase' as [[]|Hsn]. exact Hsn. }
  destruct (for_each _ (v :: vs) _) as [[dfk outk]|e st'] eqn:E; [|discriminate].
  injection H as <- _.
  apply (fold_restaurar_sin_nulos df n (v :: vs) dfk).
  exact (for_each_sin_nulos _ _ n (v :: vs) _ (dfk, outk) E Hcase').
Qed.

End NumericasErrores.

(* ------------------------------------------------------------------------ *)
(** ** The imputation stage of the pipeline *)

Lemma assoc_get_In_pair l n c : assoc_get l n = Some c -> In (n, c) l.
Proof.
  induction l as [|[m c0] l IH]; cbn [assoc_get]; [discriminate|].
  destruct (String.eqb_spec m n) as [->|Hne].
  - intros [= ->]. now left.
  - intros H. right. now apply IH.
Qed.

Lemma assoc_get_NoDup l n c :
  NoDup (map fst l) -> In (n, c) l -> assoc_get l n = Some c.
Proof.
  induction l as [|[m c0] l IH]; cbn [map fst assoc_get]; intros Hnd Hin; [destruct Hin|].
  inversion Hnd as [|? ? Hni Hnd']; subst.
  destruct Hin as [[= -> ->]|Hin].
  - now rewrite String.eqb_refl.
  - destruct (String.eqb_spec m n) as [->|Hne]; [|now apply IH].
    exfalso. apply Hni. apply in_map_iff. now exists (n, c).
Qed.

Lemma In_select_object df n c :
  df_get df n = Some c -> is_numeric c = false -> In n (select_object df).
Proof.
  intros Hc Hnum. unfold select_object. apply in_map_iff. exists (n, c).
  split; [reflexivity|]. apply filter_In. split; [now apply assoc_get_In_pair|].
  cbn [snd]. now rewrite Hnum.
Qed.

Lemma select_object_has_col df n : In n (select_object df) -> has_col df n = true.
Proof.
  unfold select_object. intros H. apply in_map_iff in H as ([m c] & <- & H).
  apply filter_In in H as [H _]. apply has_col_In. unfold col_names.
  apply in_map_iff. now exists (m, c).
Qed.

Lemma In_numericas_con_nulos df n c :
  df_get df n = Some c -> is_numeric c = true -> count_null (col_cells c) <> 0%nat ->
  In n (numericas_con_nulos df).
Proof.
  intros Hc Hnum Hnull. unfold numericas_con_nulos. apply in_map_iff. exists (n, c).
  split; [reflexivity|]. apply filter_In. split.
  - apply filter_In. split; [now apply assoc_get_In_pair | exact Hnum].
  - cbn [snd]. now apply Nat.eqb_neq in Hnull as ->.
Qed.

Lemma numericas_con_nulos_has_col df n :
  In n (numericas_con_nulos df) -> has_col df n = true.
Proof.
  unfold numericas_con_nulos. intros H. apply in_map_iff in H as ([m c] & <- & H).
  apply filter_In in H as [H _]. apply filter_In in H as [H _].
  apply has_col_In. unfold col_names. apply in_map_iff. now exists (m, c).
Qed.

Lemma numericas_con_nulos_es_numerica df n :
  NoDup (col_names df) -> In n (numericas_con_nulos df) -> es_numerica df n.
Proof.
  unfold numericas_con_nulos. intros Hnd H. apply in_map_iff in H as ([m c] & <- & H).
  apply filter_In in H as [H _]. apply filter_In in H as [H Hnum]. cbn [fst snd] in *.
  destruct c as [dt xs|xs]; [|discriminate]. exists dt, xs.
  now apply assoc_get_NoDup.
Qed.

Lemma nulos_en_cero df cols :
  (forall n, In n cols -> sin_nulos df n) -> nulos_en df cols = Some 0%nat.
Proof.
  induction cols as [|x cols IH]; intros H; cbn [nulos_en]; [reflexivity|].
  destruct (H x (or_introl eq_refl)) as (c & -> & ->).
  rewrite IH; [reflexivity|]. intros n Hn. apply H. now right.
Qed.

Lemma nulos_en_Some df cols :
  (forall n, In n cols -> has_col df n = true) -> exists k, nulos_en df cols = Some k.
Proof.
  induction cols as [|x cols IH]; intros H; cbn [nulos_en]; [now exists 0%nat|].
  pose proof (H x (or_introl eq_refl)) as Hx. apply has_col_true in Hx as [c ->].
  destruct IH as [k ->]; [intros n Hn; apply H; now right|]. eauto.
Qed.

(** An assignment of numeric data never produces a text column. *)
Lemma escrituras_objeto P df df' n c :
  escrituras P df df' -> df_get df' n = Some c -> is_numeric c = false ->
  df_get df n = Some c.
Proof.
  intros H. induction H as [|df df' m c0 H IH Hm Hc0]; intros Hc Hnum; [assumption|].
  destruct (String.eqb_spec n m) as [->|Hne].
  - rewrite df_get_set_same in Hc. injection Hc as <-. congruence.
  - rewrite df_get_set_other in Hc by assumption. now apply IH.
Qed.

Lemma lower_append a b : lower (a ++ b) = (lower a ++ lower b)%string.
Proof. induction a as [|ch a IH]; cbn; [reflexivity | now rewrite IH]. Qed.

(** The label of an indicator is never the target column. *)
Lemma indicador_no_attrition x : lower (x ++ "_missing") <> "attrition".
Proof.
  rewrite lower_append. change (lower "_missing") with "_missing".
  generalize (lower x) as s. intros s H.
  pose proof (f_equal String.length H) as Hl. rewrite length_append in Hl.
  destruct s as [|a [|b s]]; cbn in Hl; try lia.
  cbn in H. inversion H.
Qed.

Section EtapaProps.

Variable es_blanco : string -> bool.

Local Abbreviation etapa := (etapa_imputacion es_blanco).

(** The frame after the blank texts were made missing, and after the
    categorical imputation. *)
Local Abbreviation df1 df := (reemplazar_blancos es_blanco df (cols_cat df)).
Local Abbreviation st2 df := (imputar_categoricas_default (df1 df) (cols_cat df)).

Lemma fold_blancos_get df0 n cols : forall d,
  df_get (fold_left (fun d n => match df_get df0 n with
                                | Some c => df_set d n (replace_blancos es_blanco c)
                                | None => d
                                end) cols d) n
  = if in_dec string_dec n cols
    then match df_get df0 n with
         | Some c => Some (replace_blancos es_blanco c)
         | None => df_get d n
         end
    else df_get d n.
Proof.
  induction cols as [|x cols IH]; intros d; [reflexivity|].
  cbn [fold_left]. rewrite IH.
  destruct (in_dec string_dec n cols) as [Hin|Hin];
    destruct (in_dec string_dec n (x :: cols)) as [Hin'|Hin'].
  - destruct (df_get df0 n) eqn:E; [reflexivity|].
    destruct (df_get df0 x) eqn:Ex; [|reflexivity].
    apply df_get_set_other. intros ->. congruence.
  - exfalso. apply Hin'. now right.
  - assert (x = n) as -> by (destruct Hin' as [?|?]; [assumption | contradiction]).
    destruct (df_get df0 n) eqn:E; [apply df_get_set_same | reflexivity].
  - destruct (df_get df0 x) eqn:Ex; [|reflexivity].
    apply df_get_set_other. intros ->. apply Hin'. now left.
Qed.

Lemma fold_blancos_names df0 cols : forall d,
  (forall n, has_col df0 n = true -> has_col d n = true) ->
  col_names (fold_left (fun d n => match df_get df0 n with
                                   | Some c => df_set d n (replace_blancos es_blanco c)
                                   | None => d
                                   end) cols d) = col_names d.
Proof.
  induction cols as [|x cols IH]; intros d Hd; [reflexivity|].
  cbn [fold_left]. destruct (df_get df0 x) as [c|] eqn:Ex; [|now apply IH].
  rewrite IH.
  - rewrite col_names_df_set, Hd; [apply app_nil_r|]. unfold has_col. now rewrite Ex.
  - intros n Hn. apply has_col_df_set. now apply Hd.
Qed.

Lemma df1_names df : col_names (df1 df) = col_names df.
Proof. apply fold_blancos_names. auto. Qed.

Lemma df1_has_col df n : has_col (df1 df) n = has_col df n.
Proof.
  destruct (has_col df n) eqn:E.
  - apply has_col_In. rewrite df1_names. now apply has_col_In.
  - destruct (has_col (df1 df) n) eqn:E'; [|reflexivity].
    apply has_col_In in E'. rewrite df1_names in E'. apply has_col_In in E'. congruence.
Qed.

Lemma df1_otras df n : ~ In n (cols_cat df) -> df_get (df1 df) n = df_get df n.
Proof.
  intros Hn. unfold reemplazar_blancos. rewrite fold_blancos_get.
  now destruct (in_dec string_dec n (cols_cat df)).
Qed.

Lemma st2_names df : col_names (fst (st2 df)) = col_names df.
Proof.
  destruct (imputar_categoricas_solo_rellena (20 # 100) (5 # 100) (50 # 100) (60 # 100)
              (20 # 100) "Unknown" (df1 df) (cols_cat df)) as (Hn & _).
  unfold imputar_categoricas_default. rewrite Hn. apply df1_names.
Qed.

Lemma st2_has_col df n : has_col (fst (st2 df)) n = has_col df n.
Proof.
  destruct (has_col df n) eqn:E.
  - apply has_col_In. rewrite st2_names. now apply has_col_In.
  - destruct (has_col (fst (st2 df)) n) eqn:E'; [|reflexivity].
    apply has_col_In in E'. rewrite st2_names in E'. apply has_col_In in E'. congruence.
Qed.

Lemma st2_otras df n : ~ In n (cols_cat df) -> df_get (fst (st2 df)) n = df_get df n.
Proof.
  intros Hn.
  destruct (imputar_categoricas_solo_rellena (20 # 100) (5 # 100) (50 # 100) (60 # 100)
              (20 # 100) "Unknown" (df1 df) (cols_cat df)) as (_ & _ & Hf & _).
  unfold imputar_categoricas_default. rewrite (Hf n Hn). now apply df1_otras.
Qed.

Lemma cols_cat_has_col df n : In n (cols_cat df) -> has_col df n = true.
Proof.
  unfold cols_cat. intros H. apply filter_In in H as [H _].
  now apply select_object_has_col.
Qed.

Lemma st2_sin_nulos df n : In n (cols_cat df) -> sin_nulos (fst (st2 df)) n.
Proof.
  intros Hin. unfold imputar_categoricas_default, imputar_categoricas.
  apply (fold_completes (20 # 100) (5 # 100) (50 # 100) (60 # 100) (20 # 100) "Unknown");
    [assumption|].
  cbn [fst]. rewrite df1_has_col. now apply cols_cat_has_col.
Qed.

(** The text columns of the frame handed to the numeric imputer are
    complete, the target column apart. *)
Lemma st2_objeto df n c :
  df_get (fst (st2 df)) n = Some c -> is_numeric c = false ->
  lower n <> "attrition" -> count_null (col_cells c) = 0%nat.
Proof.
  intros Hc Hnum Hlow.
  assert (Hin : In n (cols_cat df)).
  { destruct (in_dec string_dec n (cols_cat df)) as [Hin|Hni]; [assumption|].
    rewrite (st2_otras df n Hni) in Hc. unfold cols_cat. apply filter_In. split.
    - now apply (In_select_object df n c).
    - destruct (String.eqb_spec (lower n) "attrition"); [contradiction | reflexivity]. }
  destruct (st2_sin_nulos df n Hin) as (c' & Hc' & Hz). congruence.
Qed.

(** The stage, once the categorical report is known to be 0. *)
Lemma etapa_eq df :
  etapa df
  = let salida := map MsgImputacion (snd (st2 df)) ++ [MsgNulosCategoricos 0] in
    let cols_num := numericas_con_nulos (fst (st2 df)) in
    match imputar_numericas_default (fst (st2 df)) cols_num with
    | Raise e (df', out_num) => EtapaRaise e df' (salida ++ map MsgImputacion out_num)
    | Ok (df', out_num) =>
        match nulos_en df' cols_num with
        | None => EtapaRaise KeyError df' (salida ++ map MsgImputacion out_num)
        | Some k =>
            EtapaOk df' ((salida ++ map MsgImputacion out_num) ++ [MsgNulosNumericos k])
        end
    end.
Proof.
  pose proof (nulos_en_cero (fst (st2 df)) (cols_cat df) (st2_sin_nulos df)) as H0.
  unfold etapa_imputacion.
  destruct (st2 df) as [d2 out_cat]. cbn [fst snd] in *. now rewrite H0.
Qed.

Lemma llamada_default_escrituras df columnas :
  escrituras (fun n => In n (validas df columnas) \/ indicador_de (validas df columnas) n)
             df (fst (estado (imputar_numericas_default df columnas))).
Proof. apply llamada_escrituras. Qed.

(** X12.  The stage never raises [KeyError]: the labels it hands to the
    two imputers and to the two closing counts are columns of the frame,
    so that the only exception it can end with is the [ValueError] of the
    numeric imputer. *)
Theorem X12_etapa_sin_KeyError (df df' : DataFrame) (salida : list MsgEtapa) :
  etapa df <> EtapaRaise KeyError df' salida.
Proof.
  rewrite etapa_eq. cbv zeta.
  set (d2 := fst (st2 df)). set (cn := numericas_con_nulos d2).
  assert (Hcn : forall n, In n cn -> has_col d2 n = true)
    by (intros n; apply numericas_con_nulos_has_col).
  destruct (imputar_numericas_default d2 cn) as [[d3 out]|e [d3 out]] eqn:E.
  - pose proof (llamada_default_escrituras d2 cn) as He. rewrite E in He.
    cbn [estado fst] in He.
    destruct (nulos_en_Some d3 cn) as [k ->]; [|discriminate].
    intros n Hn. apply (escrituras_has_col _ _ _ n He). now apply Hcn.
  - intros [= -> -> _].
    apply (llamada_KeyError_inv (5 # 100) (20 # 100) 5%nat true false d2 cn (df', out))
      in E as (_ & c & Hc & Hno).
    rewrite (Hcn c Hc) in Hno. discriminate.
Qed.

Lemma etapa_numerica_sin_nulos df d3 out n :
  imputar_numericas_default (fst (st2 df)) (numericas_con_nulos (fst (st2 df)))
  = Ok (d3, out) ->
  numerica_sin_nulos d3 n.
Proof.
  intros E.
  apply (llamada_sin_nulos (5 # 100) (20 # 100) 5%nat true false _ _ d3 out n E).
  destruct (df_get (fst (st2 df)) n) as [[dt xs|xs]|] eqn:E2.
  - destruct (Nat.eq_dec (count_null xs) 0) as [Hz|Hnz].
    + right. intros c0 Hc0 _. rewrite E2 in Hc0. injection Hc0 as <-.
      cbn [col_cells]. now rewrite count_null_map_VNum.
    + left. split; [|now exists dt, xs].
      apply (In_numericas_con_nulos _ n (ColNum dt xs) E2 eq_refl).
      cbn [col_cells]. now rewrite count_null_map_VNum.
  - right. intros c0 Hc0 Hn0. rewrite E2 in Hc0. injection Hc0 as <-. discriminate.
  - right. intros c0 Hc0. rewrite E2 in Hc0. discriminate.
Qed.

Lemma etapa_nulos_numericos df d3 out :
  NoDup (col_names df) ->
  imputar_numericas_default (fst (st2 df)) (numericas_con_nulos (fst (st2 df)))
  = Ok (d3, out) ->
  nulos_en d3 (numericas_con_nulos (fst (st2 df))) = Some 0%nat.
Proof.
  intros Hnd E. apply nulos_en_cero. intros n Hn.
  assert (Hnum : es_numerica (fst (st2 df)) n).
  { apply numericas_con_nulos_es_numerica; [|assumption]. now rewrite st2_names. }
  pose proof (llamada_default_escrituras (fst (st2 df))
                (numericas_con_nulos (fst (st2 df)))) as He.
  rewrite E in He. cbn [estado fst] in He.
  destruct (escrituras_numerica _ _ _ n He Hnum) as (dt & ys & Hc).
  exists (ColNum dt ys). split; [assumption|].
  now apply (etapa_numerica_sin_nulos df d3 out n E).
Qed.

Lemma no_In_categoricos k out : ~ In (MsgNulosCategoricos k) (map MsgImputacion out).
Proof. intros H. apply in_map_iff in H as (m & Hm & _). discriminate. Qed.

Lemma no_In_numericos k out : ~ In (MsgNulosNumericos k) (map MsgImputacion out).
Proof. intros H. apply in_map_iff in H as (m & Hm & _). discriminate. Qed.

(** X13.  The two closing reports of the stage carry no information: the
    count of remaining categorical gaps is printed on every run and is
    always 0, and the count of remaining numeric gaps, printed when the
    numeric imputer returns, is always 0 as well. *)
Theorem X13_etapa_informes (df : DataFrame) :
  NoDup (col_names df) ->
  (forall k, In (MsgNulosCategoricos k) (etapa_salida (etapa df)) <-> k = 0%nat) /\
  (forall k, In (MsgNulosNumericos k) (etapa_salida (etapa df)) -> k = 0%nat) /\
  (forall df' s, etapa df = EtapaOk df' s -> In (MsgNulosNumericos 0) s).
Proof.
  intros Hnd. rewrite etapa_eq. cbv zeta.
  pose proof (etapa_nulos_numericos df) as Hnum.
  destruct (imputar_numericas_default _ _) as [[d3 out]|e [d3 out]].
  - rewrite (Hnum d3 out Hnd eq_refl). cbn [etapa_salida]. split; [|split].
    + intros k. rewrite !in_app_iff. cbn [In]. split.
      * intros [[[H|[H|[]]]|H]|[H|[]]]; try discriminate;
          [now apply no_In_categoricos in H | now injection H
           | now apply no_In_categoricos in H].
      * intros ->. left. left. right. now left.
    + intros k. rewrite !in_app_iff. cbn [In].
      intros [[[H|[H|[]]]|H]|[H|[]]]; try discriminate;
        [now apply no_In_numericos in H | now apply no_In_numericos in H
         | now injection H].
    + intros df' s [= _ <-]. rewrite !in_app_iff. right. now left.
  - cbn [etapa_salida]. split; [|split].
    + intros k. rewrite !in_app_iff. cbn [In]. split.
      * intros [[H|[H|[]]]|H];
          [now apply no_In_categoricos in H | now injection H
           | now apply no_In_categoricos in H].
      * intros ->. left. right. now left.
    + intros k. rewrite !in_app_iff. cbn [In].
      intros [[H|[H|[]]]|H]; try discriminate;
        [now apply no_In_numericos in H | now apply no_In_numericos in H].
    + intros df' s H. discriminate.
Qed.

(** X14.  When the stage returns, the frame has no missing cell left
    outside a text column named "attrition" (in any letter case): every
    numeric column is complete, the indicators included, and so is every
    other text column. *)
Theorem X14_etapa_completa (df df' : DataFrame) (salida : list MsgEtapa)
        (n : string) (c : Column) :
  etapa df = EtapaOk df' salida ->
  df_get df' n = Some c ->
  is_numeric c = true \/ lower n <> "attrition" ->
  count_null (col_cells c) = 0%nat.
Proof.
  rewrite etapa_eq. cbv zeta.
  destruct (imputar_numericas_default _ _) as [[d3 out]|e [d3 out]] eqn:E; [|discriminate].
  destruct (nulos_en d3 _); [|discriminate].
  intros [= <- _] Hc Hcase. destruct (is_numeric c) eqn:Hnum.
  - now apply (etapa_numerica_sin_nulos df d3 out n E c Hc).
  - destruct Hcase as [?|Hlow]; [discriminate|].
    pose proof (llamada_default_escrituras (fst (st2 df))
                  (numericas_con_nulos (fst (st2 df)))) as He.
    rewrite E in He. cbn [estado fst] in He.
    apply (st2_objeto df n c); [|assumption | assumption].
    now apply (escrituras_objeto _ _ _ n c He).
Qed.

Lemma etapa_df_eq df :
  etapa_df (etapa df)
  = fst (estado (imputar_numericas_default (fst (st2 df))
                   (numericas_con_nulos (fst (st2 df))))).
Proof.
  rewrite etapa_eq. cbv zeta.
  destruct (imputar_numericas_default _ _) as [[d3 out]|e [d3 out]]; [|reflexivity].
  now destruct (nulos_en d3 _).
Qed.

(** X15.  A text column named "attrition", in any letter case, goes
    through the stage as it is, blank texts and gaps included, whether
    the stage returns or raises. *)
Theorem X15_etapa_attrition (df : DataFrame) (n : string) (xs : list cell) :
  df_get df n = Some (ColObj xs) ->
  lower n = "attrition" ->
  df_get (etapa_df (etapa df)) n = Some (ColObj xs).
Proof.
  intros Hc Hlow.
  assert (Hni : ~ In n (cols_cat df)).
  { unfold cols_cat. intros H. apply filter_In in H as [_ H].
    rewrite Hlow in H. discriminate. }
  assert (H2 : df_get (fst (st2 df)) n = Some (ColObj xs))
    by (now rewrite (st2_otras df n Hni)).
  rewrite etapa_df_eq, <- H2.
  apply (escrituras_frame _ _ _ n (llamada_default_escrituras _ _)).
  intros [Hv|(x & _ & ->)].
  - apply In_validas in Hv as [_ (dt & ys & Hn)]. congruence.
  - now apply indicador_no_attrition in Hlow.
Qed.

End EtapaProps.

(* ------------------------------------------------------------------------ *)
(** ** Columns without analytic value *)

Lemma length_distinct vs : (length (distinct vs) <= length vs)%nat.
Proof.
  induction vs as [|v vs IH]; cbn [distinct length]; [lia|].
  pose proof (filter_length_le (fun w => negb (value_eqb v w)) (distinct vs)). lia.
Qed.

Lemma length_present_count_null {A} (cs : list (option A)) :
  (length (present cs) + count_null cs = length cs)%nat.
Proof.
  unfold count_null. induction cs as [|[x|] cs IH]; cbn [present filter isnull length];
    lia.
Qed.

(** A series has at most as many distinct values as rows. *)
Lemma nunique_le cs : (nunique cs <= length cs)%nat.
Proof.
  unfold nunique. pose proof (length_distinct (present cs)).
  pose proof (length_present_count_null cs).
  unfold cell in *. destruct (Nat.eqb_spec (count_null cs) 0); lia.
Qed.

Lemma nunique_una_fila c : length c = 1%nat -> nunique c = 1%nat.
Proof.
  destruct c as [|[v|] [|? ?]]; cbn; intros H; try discriminate; reflexivity.
Qed.

Lemma ratio_le_1 a b : (a <= b)%nat -> b <> 0%nat -> ratio a b <= 1.
Proof.
  intros Hab Hb. unfold ratio. apply Qle_shift_div_r.
  - change 0 with (inject_Z 0). rewrite <- Zlt_Qlt. lia.
  - rewrite Qmult_1_l. rewrite <- Zle_Qle. lia.
Qed.

Lemma length_col_cells c : length (col_cells c) = col_len c.
Proof. destruct c as [dt xs|xs]; cbn [col_cells col_len]; [apply length_map | reflexivity]. Qed.

Lemma df_drop_nil df : df_drop df [] = df.
Proof.
  destruct df as [n cols]. unfold df_drop. cbn [nrows columns]. f_equal.
  induction cols as [|nc cols IH]; cbn [filter existsb negb]; [reflexivity|].
  f_equal. exact IH.
Qed.

Section EliminarProps.

Variable umbral_cardinalidad : Q.

Local Abbreviation eliminar := (eliminar_columnas_sin_aporte_analitico umbral_cardinalidad).
Local Abbreviation a_eliminar := (columnas_a_eliminar umbral_cardinalidad).
Local Abbreviation test := (sin_aporte umbral_cardinalidad).

Lemma a_eliminar_sin_filas cols acc :
  cols <> [] -> a_eliminar 0%nat cols acc = None.
Proof. destruct cols as [|[col c] cols]; [congruence | reflexivity]. Qed.

(** The list of the loop: the labels of the columns that meet the test,
    in the order of the frame. *)
Lemma a_eliminar_filter total cols : forall acc,
  total <> 0%nat ->
  a_eliminar total cols acc
  = Some (acc ++ map fst (filter (fun nc => test total (snd nc)) cols)).
Proof.
  induction cols as [|[col c] cols IH]; intros acc Ht; cbn [columnas_a_eliminar filter].
  - now rewrite app_nil_r.
  - apply Nat.eqb_neq in Ht as Ht'. rewrite Ht'. cbn [snd]. unfold sin_aporte.
    destruct (nunique (col_cells c) =? 1)%nat; cbn [orb].
    + rewrite IH by assumption. cbn [map fst]. now rewrite <- app_assoc.
    + destruct (Qgt_bool _ _).
      * rewrite IH by assumption. cbn [map fst]. now rewrite <- app_assoc.
      * now apply IH.
Qed.

(** X16.  The step raises [ZeroDivisionError] exactly on a frame without
    rows that has at least one column: the share of distinct values is
    computed before any test. *)
Theorem X16_eliminar_sin_filas (df : DataFrame) :
  eliminar df = EliminacionZeroDivision <-> nrows df = 0%nat /\ columns df <> [].
Proof.
  unfold eliminar_columnas_sin_aporte_analitico. split.
  - destruct (Nat.eq_dec (nrows df) 0) as [H0|H0].
    + destruct (columns df) as [|nc cols]; [discriminate|]. intros _. now split.
    + rewrite a_eliminar_filter by assumption. discriminate.
  - intros [H0 Hc]. rewrite H0. now rewrite a_eliminar_sin_filas.
Qed.

Lemma filter_test_todas total (cols : list (string * Column)) :
  (forall nc, In nc cols -> test total (snd nc) = true) ->
  filter (fun nc => test total (snd nc)) cols = cols.
Proof.
  induction cols as [|nc cols IH]; intros H; cbn [filter]; [reflexivity|].
  rewrite (H nc (or_introl eq_refl)). f_equal. apply IH. intros x Hx. apply H. now right.
Qed.

Lemma filter_drop_todas (cols : list (string * Column)) l :
  (forall nc, In nc cols -> In (fst nc) l) ->
  filter (fun nc => negb (existsb (String.eqb (fst nc)) l)) cols = [].
Proof.
  induction cols as [|nc cols IH]; intros H; cbn [filter]; [reflexivity|].
  assert (E : existsb (String.eqb (fst nc)) l = true).
  { apply existsb_exists. exists (fst nc). split; [apply H; now left | apply String.eqb_refl]. }
  rewrite E. cbn [negb]. apply IH. intros x Hx. apply H. now right.
Qed.

(** X17.  On a frame of one row every column counts as constant: the
    step removes all the columns. *)
Theorem X17_eliminar_una_fila (df : DataFrame) :
  wf_df df ->
  nrows df = 1%nat ->
  eliminar df = EliminacionOk (mkDF 1 []) (col_names df).
Proof.
  intros [_ Hlen] H1. unfold eliminar_columnas_sin_aporte_analitico.
  rewrite a_eliminar_filter by lia. cbn [app].
  rewrite filter_test_todas.
  - fold (col_names df). unfold df_drop. rewrite H1.
    rewrite filter_drop_todas; [reflexivity|].
    intros nc Hnc. unfold col_names. now apply in_map.
  - intros nc Hnc. unfold sin_aporte. rewrite Forall_forall in Hlen.
    rewrite nunique_una_fila; [reflexivity|].
    rewrite length_col_cells, (Hlen nc Hnc). exact H1.
Qed.

(** X18.  With a threshold of 1 or more the test of cardinality never
    fires: a column has at most as many distinct values as the frame has
    rows, and the step removes the constant columns only. *)
Theorem X18_eliminar_umbral_1 (df : DataFrame) :
  wf_df df ->
  nrows df <> 0%nat ->
  1 <= umbral_cardinalidad ->
  let l := map fst (filter (fun nc => constante (snd nc)) (columns df)) in
  eliminar df = EliminacionOk (df_drop df l) l.
Proof.
  intros [_ Hlen] H0 Hu l. unfold eliminar_columnas_sin_aporte_analitico.
  rewrite a_eliminar_filter by assumption. cbn [app].
  assert (E : filter (fun nc => test (nrows df) (snd nc)) (columns df)
              = filter (fun nc => constante (snd nc)) (columns df)).
  { apply filter_ext_in. intros nc Hnc. unfold sin_aporte, constante.
    destruct (nunique (col_cells (snd nc)) =? 1)%nat; [reflexivity|]. cbn [orb].
    unfold Qgt_bool. apply negb_false_iff. apply Qle_bool_iff.
    eapply Qle_trans; [|exact Hu]. apply ratio_le_1; [|assumption].
    rewrite Forall_forall in Hlen. rewrite <- (Hlen nc Hnc), <- length_col_cells.
    apply nunique_le. }
  rewrite E. reflexivity.
Qed.

Lemma filter_test_ninguna total (cols : list (string * Column)) l :
  l = map fst (filter (fun nc => test total (snd nc)) cols) ->
  filter (fun nc => test total (snd nc))
         (filter (fun nc => negb (existsb (String.eqb (fst nc)) l)) cols) = [].
Proof.
  intros Hl.
  assert (H : forall nc, In nc cols -> test total (snd nc) = true ->
                         existsb (String.eqb (fst nc)) l = true).
  { intros nc Hin Ht. apply existsb_exists. exists (fst nc).
    split; [|apply String.eqb_refl]. rewrite Hl. apply in_map. now apply filter_In. }
  clear Hl. induction cols as [|nc cols IH]; cbn [filter]; [reflexivity|].
  destruct (existsb (String.eqb (fst nc)) l) eqn:E; cbn [negb].
  - apply IH. intros x Hx. apply H. now right.
  - cbn [filter]. destruct (test total (snd nc)) eqn:Et.
    + rewrite (H nc (or_introl eq_refl) Et) in E. discriminate.
    + apply IH. intros x Hx. apply H. now right.
Qed.

(** X19.  The step is idempotent: applied to its own result it removes
    nothing and returns the frame as it is. *)
Theorem X19_eliminar_idempotente (df df' : DataFrame) (l : list string) :
  eliminar df = EliminacionOk df' l ->
  eliminar df' = EliminacionOk df' [].
Proof.
  unfold eliminar_columnas_sin_aporte_analitico.
  destruct (Nat.eq_dec (nrows df) 0) as [H0|H0].
  - destruct df as [n [|[col c] cols]]; cbn [nrows columns] in *.
    + cbn. intros [= <- _]. reflexivity.
    + rewrite H0. cbn. discriminate.
  - rewrite a_eliminar_filter by assumption. cbn [app]. intros [= <- <-].
    cbn [nrows columns df_drop]. rewrite a_eliminar_filter by assumption. cbn [app].
    rewrite (filter_test_ninguna (nrows df) (columns df) _ eq_refl). cbn [map].
    f_equal. apply (df_drop_nil (df_drop df _)).
Qed.

End EliminarProps.

(* ------------------------------------------------------------------------ *)
(** ** The ordinal mapping *)

Lemma mapear_columna_get_otro df l columna mapa n :
  n <> columna -> df_get (fst (mapear_columna (df, l) (columna, mapa))) n = df_get df n.
Proof.
  intros Hne. cbn [mapear_columna]. destruct (df_get df columna) as [c|]; cbn [fst];
    [now apply df_get_set_other | reflexivity].
Qed.

Lemma mapear_columna_get_mismo df l columna mapa :
  df_get (fst (mapear_columna (df, l) (columna, mapa))) columna
  = option_map (map_serie mapa) (df_get df columna).
Proof.
  cbn [mapear_columna]. destruct (df_get df columna) as [c|] eqn:E; cbn [fst option_map];
    [apply df_get_set_same | exact E].
Qed.

Lemma fold_mapear_otras n mapeos : forall st,
  ~ In n (map fst mapeos) ->
  df_get (fst (fold_left mapear_columna mapeos st)) n = df_get (fst st) n.
Proof.
  induction mapeos as [|[columna mapa] mapeos IH]; intros [df l] Hn; [reflexivity|].
  cbn [fold_left]. cbn [map fst In] in Hn.
  destruct (mapear_columna (df, l) (columna, mapa)) as [d1 l1] eqn:E.
  rewrite IH by tauto.
  change d1 with (fst (d1, l1)). rewrite <- E. apply mapear_columna_get_otro.
  intros ->. apply Hn. now left.
Qed.

Lemma fold_mapear_mapeada n mapa mapeos : forall st,
  NoDup (map fst mapeos) -> In (n, mapa) mapeos ->
  df_get (fst (fold_left mapear_columna mapeos st)) n
  = option_map (map_serie mapa) (df_get (fst st) n).
Proof.
  induction mapeos as [|[columna m] mapeos IH]; intros [df l] Hnd Hin; [destruct Hin|].
  cbn [fold_left]. cbn [map fst] in Hnd. inversion Hnd as [|? ? Hni Hnd']; subst.
  destruct (mapear_columna (df, l) (columna, m)) as [d1 l1] eqn:E.
  destruct Hin as [[= -> ->]|Hin].
  - rewrite fold_mapear_otras by assumption.
    change d1 with (fst (d1, l1)). rewrite <- E. apply mapear_columna_get_mismo.
  - rewrite (IH (d1, l1) Hnd' Hin). f_equal.
    change d1 with (fst (d1, l1)). rewrite <- E. apply mapear_columna_get_otro.
    intros ->. apply Hni. apply in_map_iff. now exists (columna, mapa).
Qed.

Lemma mapear_columna_names df l item :
  col_names (fst (mapear_columna (df, l) item)) = col_names df.
Proof.
  destruct item as [columna mapa]. cbn [mapear_columna].
  destruct (df_get df columna) as [c|] eqn:E; cbn [fst]; [|reflexivity].
  rewrite col_names_df_set. unfold has_col. rewrite E. apply app_nil_r.
Qed.

Lemma fold_mapear_names mapeos : forall st,
  col_names (fst (fold_left mapear_columna mapeos st)) = col_names (fst st).
Proof.
  induction mapeos as [|item mapeos IH]; intros [df l]; [reflexivity|].
  cbn [fold_left]. rewrite IH.
  destruct (mapear_columna (df, l) item) as [d1 l1] eqn:E.
  change d1 with (fst (d1, l1)). rewrite <- E. apply mapear_columna_names.
Qed.

Lemma count_null_map_serie mapa c :
  (count_null (col_cells c) <= count_null (col_cells (map_serie mapa c)))%nat.
Proof.
  unfold map_serie. cbn [col_cells]. unfold count_null.
  induction (col_cells c) as [|[[s|q]|] cs IH]; cbn [map filter isnull length]; try lia.
  destruct (mapa_get mapa q); cbn [option_map isnull length]; lia.
Qed.

Lemma map_serie_dos_veces mapa mapa' c :
  present (col_cells (map_serie mapa' (map_serie mapa c))) = []
  /\ length (col_cells (map_serie mapa' (map_serie mapa c))) = length (col_cells c).
Proof.
  unfold map_serie. cbn [col_cells]. split; [|now rewrite !length_map].
  induction (col_cells c) as [|[[s|q]|] cs IH]; cbn [map present]; auto.
  destruct (mapa_get mapa q); cbn [option_map present]; auto.
Qed.

(** X20.  The mapping keeps the labels of the frame, in their order, and
    every column that has no dictionary; a column that has one becomes a
    text column with at least as many gaps as before: the codes outside
    the dictionary are lost. *)
Theorem X20_mapear_marco (df : DataFrame) (mapeos : list (string * Mapa)) :
  NoDup (map fst mapeos) ->
  col_names (fst (mapear_columnas_ordinales df mapeos)) = col_names df
  /\ (forall n, ~ In n (map fst mapeos) ->
                df_get (fst (mapear_columnas_ordinales df mapeos)) n = df_get df n)
  /\ (forall n mapa c, In (n, mapa) mapeos -> df_get df n = Some c ->
        df_get (fst (mapear_columnas_ordinales df mapeos)) n = Some (map_serie mapa c)
        /\ (count_null (col_cells c)
            <= count_null (col_cells (map_serie mapa c)))%nat).
Proof.
  intros Hnd. unfold mapear_columnas_ordinales. split; [|split].
  - apply (fold_mapear_names mapeos (df, [])).
  - intros n Hn. apply (fold_mapear_otras n mapeos (df, []) Hn).
  - intros n mapa c Hin Hc. split; [|apply count_null_map_serie].
    rewrite (fold_mapear_mapeada n mapa mapeos (df, []) Hnd Hin). cbn [fst].
    now rewrite Hc.
Qed.

(** X21.  The mapping is not idempotent: applied to its own result it
    empties every column that has a dictionary, since the labels are not
    codes. *)
Theorem X21_mapear_dos_veces (df : DataFrame) (mapeos : list (string * Mapa))
        (n : string) (mapa : Mapa) (c : Column) :
  NoDup (map fst mapeos) ->
  In (n, mapa) mapeos ->
  df_get df n = Some c ->
  exists c',
    df_get (fst (mapear_columnas_ordinales
                   (fst (mapear_columnas_ordinales df mapeos)) mapeos)) n = Some c'
    /\ present (col_cells c') = []
    /\ length (col_cells c') = length (col_cells c).
Proof.
  intros Hnd Hin Hc. exists (map_serie mapa (map_serie mapa c)).
  split; [|apply map_serie_dos_veces].
  unfold mapear_columnas_ordinales.
  rewrite (fold_mapear_mapeada n mapa mapeos (_, []) Hnd Hin). cbn [fst].
  rewrite (fold_mapear_mapeada n mapa mapeos (df, []) Hnd Hin). cbn [fst].
  now rewrite Hc.
Qed.

(* ------------------------------------------------------------------------ *)
(** ** The further properties on the sample frames *)

Ltac etiquetas_distintas :=
  repeat (constructor; [cbn; intuition discriminate|]); constructor.

Ltac marco_bien_formado :=
  split; [cbn; etiquetas_distintas | repeat constructor].


(** X2 on [df_texto]: "age" is complete, so that the call on it changes
    nothing. *)
Lemma X2_testigo :
  fst (imputar_categoricas_default df_texto ["age"]) = df_texto /\
  fst (imputar_categoricas_default
         (fst (imputar_categoricas_default df_texto ["age"])) ["age"])
  = fst (imputar_categoricas_default df_texto ["age"]).
Proof.
  destruct (X2_categoricas_idempotente (20 # 100) (5 # 100) (50 # 100) (60 # 100)
              (20 # 100) "Unknown" df_texto ["age"]) as [H1 H2].
  split; [|exact H2]. apply H1.
  intros col c [<-|[]] Hc. cbn in Hc. injection Hc as <-. reflexivity.
Defined.



(** X5 on [df_entero]. *)
Lemma X5_testigo :
  exists df' out,
    imputar_numericas_default df_entero ["n"] = Ok (df', out) /\
    In "n" ["n"] /\
    es_numerica df_entero "n" /\
    exists dt ys, df_get df' "n" = Some (ColNum dt ys) /\ count_null ys = 0%nat.
Proof.
  assert (Hin : In "n" ["n"]) by (now left).
  assert (Hnum : es_numerica df_entero "n") by (now exists DInt64Nullable, datos_n).
  destruct (imputar_numericas_default df_entero ["n"]) as [[df' out]|e st] eqn:E;
    [|vm_compute in E; discriminate].
  exists df', out. split; [reflexivity|]. split; [exact Hin|]. split; [exact Hnum|].
  exact (X5_numericas_completa (5 # 100) (20 # 100) 5 true false df_entero df' out
           ["n"] "n" E Hin Hnum).
Defined.

(** X6 on [df_vacio]. *)
Lemma X6_testigo :
  wf_df df_vacio /\
  nrows df_vacio = 0%nat /\
  forallb (has_col df_vacio) ["age"] = true /\
  validas df_vacio ["age"] <> [] /\
  exists df',
    imputar_numericas_default df_vacio ["age"]
    = Raise ValueError (df', [MsgNumAnalizando (hd "" (validas df_vacio ["age"]))]).
Proof.
  assert (Hwf : wf_df df_vacio) by marco_bien_formado.
  assert (Hv : validas df_vacio ["age"] <> []) by (vm_compute; discriminate).
  split; [exact Hwf|]. split; [reflexivity|]. split; [reflexivity|]. split; [exact Hv|].
  exact (X6_numericas_sin_filas (5 # 100) (20 # 100) 5 true false df_vacio ["age"]
           Hwf eq_refl eq_refl Hv).
Defined.

(** X7 on [df_sin_valores]: the numeric column without values stops the
    call. *)
Lemma X7_testigo :
  In "v" ["v"] /\
  df_get df_sin_valores "v" = Some (ColNum DFloat64 [None; None]) /\
  present [@None Q; None] = [] /\
  ~ indicador_de ["v"] "v" /\
  forall st, imputar_numericas_default df_sin_valores ["v"] <> Ok st.
Proof.
  assert (Hin : In "v" ["v"]) by (now left).
  assert (Hni : ~ indicador_de ["v"] "v").
  { intros (x & [<-|[]] & H). discriminate H. }
  split; [exact Hin|]. split; [reflexivity|]. split; [reflexivity|]. split; [exact Hni|].
  exact (X7_numericas_columna_sin_valores (5 # 100) (20 # 100) 5 true false
           df_sin_valores ["v"] "v" DFloat64 [None; None] Hin eq_refl eq_refl Hni).
Defined.

(** X8 on [df_entero], indicators off. *)
Lemma X8_testigo :
  false = false /\
  col_names (fst (estado (imputar_numericas (5 # 100) (20 # 100) 5 false false
                            df_entero ["n"]))) = col_names df_entero
  /\ forall n, ~ (In n ["n"] /\ es_numerica df_entero n) ->
               df_get (fst (estado (imputar_numericas (5 # 100) (20 # 100) 5 false false
                                      df_entero ["n"]))) n = df_get df_entero n.
Proof.
  split; [reflexivity|].
  exact (X8_numericas_sin_indicador (5 # 100) (20 # 100) 5 false false df_entero ["n"]
           eq_refl).
Defined.







(** X12 on [df_etapa]. *)
Lemma X12_testigo :
  etapa_imputacion blanco_ascii df_etapa <> EtapaRaise KeyError df_etapa [].
Proof. exact (X12_etapa_sin_KeyError blanco_ascii df_etapa df_etapa []). Defined.

(** X13 on [df_etapa]: both reports are printed, and both are 0. *)
Lemma X13_testigo :
  NoDup (col_names df_etapa) /\
  In (MsgNulosCategoricos 0) (etapa_salida (etapa_imputacion blanco_ascii df_etapa)) /\
  exists df' s, etapa_imputacion blanco_ascii df_etapa = EtapaOk df' s /\
                In (MsgNulosNumericos 0) s.
Proof.
  assert (Hnd : NoDup (col_names df_etapa)) by (cbn; etiquetas_distintas).
  destruct (X13_etapa_informes blanco_ascii df_etapa Hnd) as (H1 & _ & H3).
  split; [exact Hnd|]. split; [now apply H1|].
  destruct (etapa_imputacion blanco_ascii df_etapa) as [df' s|e df' s] eqn:E;
    [|vm_compute in E; discriminate].
  exists df', s. split; [reflexivity|]. now apply (H3 df' s).
Defined.

(** X14 on [df_etapa]: the column "age" of the result is complete. *)
Lemma X14_testigo :
  exists df' salida c,
    etapa_imputacion blanco_ascii df_etapa = EtapaOk df' salida /\
    df_get df' "age" = Some c /\
    (is_numeric c = true \/ lower "age" <> "attrition") /\
    count_null (col_cells c) = 0%nat.
Proof.
  assert (Hn : forall c, is_numeric c = true \/ lower "age" <> "attrition").
  { intros c. right. vm_compute. intros H. discriminate H. }
  destruct (etapa_imputacion blanco_ascii df_etapa) as [df' s|e df' s] eqn:E;
    [|vm_compute in E; discriminate].
  destruct (df_get df' "age") as [c|] eqn:Ec;
    [|vm_compute in E; injection E as <- _; vm_compute in Ec; discriminate].
  exists df', s, c. split; [reflexivity|]. split; [exact Ec|]. split; [exact (Hn c)|].
  exact (X14_etapa_completa blanco_ascii df_etapa df' s "age" c E Ec (Hn c)).
Defined.

(** X15 on [df_etapa]: the column "Attrition" keeps its gap and its
    empty text. *)
Lemma X15_testigo :
  df_get df_etapa "Attrition"
  = Some (ColObj [Some (VStr "Yes"); None; Some (VStr ""); Some (VStr "No")]) /\
  lower "Attrition" = "attrition" /\
  df_get (etapa_df (etapa_imputacion blanco_ascii df_etapa)) "Attrition"
  = Some (ColObj [Some (VStr "Yes"); None; Some (VStr ""); Some (VStr "No")]).
Proof.
  split; [reflexivity|]. split; [reflexivity|].
  exact (X15_etapa_attrition blanco_ascii df_etapa "Attrition" _ eq_refl eq_refl).
Defined.

(** X16 on [df_vacio]. *)
Lemma X16_testigo :
  (nrows df_vacio = 0%nat /\ columns df_vacio <> []) /\
  eliminar_columnas_default df_vacio = EliminacionZeroDivision.
Proof.
  assert (H : nrows df_vacio = 0%nat /\ columns df_vacio <> [])
    by (split; [reflexivity | discriminate]).
  split; [exact H|].
  exact (proj2 (X16_eliminar_sin_filas (95 # 100) df_vacio) H).
Defined.

(** X17 on [df_una_fila]. *)
Lemma X17_testigo :
  wf_df df_una_fila /\
  nrows df_una_fila = 1%nat /\
  eliminar_columnas_default df_una_fila = EliminacionOk (mkDF 1 []) ["gender"; "age"].
Proof.
  assert (Hwf : wf_df df_una_fila) by marco_bien_formado.
  split; [exact Hwf|]. split; [reflexivity|].
  exact (X17_eliminar_una_fila (95 # 100) df_una_fila Hwf eq_refl).
Defined.

(** X18 on [df_aporte] with the threshold 1: the identifier stays. *)
Lemma X18_testigo :
  wf_df df_aporte /\
  nrows df_aporte <> 0%nat /\
  1 <= 1 /\
  eliminar_columnas_sin_aporte_analitico 1 df_aporte
  = EliminacionOk (df_drop df_aporte ["over18"]) ["over18"].
Proof.
  assert (Hwf : wf_df df_aporte) by marco_bien_formado.
  assert (H0 : nrows df_aporte <> 0%nat) by discriminate.
  assert (H1 : 1 <= 1) by apply Qle_refl.
  split; [exact Hwf|]. split; [exact H0|]. split; [exact H1|].
  exact (X18_eliminar_umbral_1 1 df_aporte Hwf H0 H1).
Defined.

(** X19 on [df_aporte]: the second pass removes nothing. *)
Lemma X19_testigo :
  exists df' l,
    eliminar_columnas_default df_aporte = EliminacionOk df' l /\
    eliminar_columnas_default df' = EliminacionOk df' [].
Proof.
  destruct (eliminar_columnas_default df_aporte) as [df' l|] eqn:E;
    [|vm_compute in E; discriminate].
  exists df', l. split; [reflexivity|].
  exact (X19_eliminar_idempotente (95 # 100) df_aporte df' l E).
Defined.

(** X20 on [df_ordinal]: the code 7 of "job_level" is lost, "age" is as
    before. *)
Lemma X20_testigo :
  NoDup (map fst mapeos_ejemplo) /\
  col_names (fst (mapear_columnas_ordinales df_ordinal mapeos_ejemplo))
  = col_names df_ordinal /\
  df_get (fst (mapear_columnas_ordinales df_ordinal mapeos_ejemplo)) "age"
  = df_get df_ordinal "age" /\
  df_get (fst (mapear_columnas_ordinales df_ordinal mapeos_ejemplo)) "job_level"
  = Some (map_serie job_level_map (ColNum DInt64 [Some 1; Some 7; Some 5])).
Proof.
  assert (Hnd : NoDup (map fst mapeos_ejemplo)) by (cbn; etiquetas_distintas).
  destruct (X20_mapear_marco df_ordinal mapeos_ejemplo Hnd) as (H1 & H2 & H3).
  split; [exact Hnd|]. split; [exact H1|]. split.
  - apply H2. cbn. intuition discriminate.
  - apply (H3 "job_level" job_level_map); [now left | reflexivity].
Defined.

(** X21 on [df_ordinal]: the second mapping empties "job_level". *)
Lemma X21_testigo :
  NoDup (map fst mapeos_ejemplo) /\
  In ("job_level", job_level_map) mapeos_ejemplo /\
  df_get df_ordinal "job_level" = Some (ColNum DInt64 [Some 1; Some 7; Some 5]) /\
  exists c',
    df_get (fst (mapear_columnas_ordinales
                   (fst (mapear_columnas_ordinales df_ordinal mapeos_ejemplo))
                   mapeos_ejemplo)) "job_level" = Some c'
    /\ present (col_cells c') = []
    /\ length (col_cells c')
       = length (col_cells (ColNum DInt64 [Some 1; Some 7; Some 5])).
Proof.
  assert (Hnd : NoDup (map fst mapeos_ejemplo)) by (cbn; etiquetas_distintas).
  assert (Hin : In ("job_level", job_level_map) mapeos_ejemplo) by (now left).
  split; [exact Hnd|]. split; [exact Hin|]. split; [reflexivity|].
  exact (X21_mapear_dos_veces df_ordinal mapeos_ejemplo "job_level" job_level_map _
           Hnd Hin eq_refl).
Defined.

(** What the stage does on [df_etapa]: the blank "department" becomes a
    gap and is filled, "age" gets its indicator, the median 35 and its
    integer dtype, and "Attrition" is as it was. *)
Example etapa_df_etapa :
  etapa_df (etapa_imputacion blanco_ascii df_etapa)
  = mkDF 4
      [("department", ColObj [Some (VStr "Sales"); Some (VStr "Unknown");
                              Some (VStr "Sales"); Some (VStr "Sales")]);
       ("Attrition", ColObj [Some (VStr "Yes"); None; Some (VStr ""); Some (VStr "No")]);
       ("age", ColNum DInt64Nullable [Some 30; Some 35; Some 41; Some 35]);
       ("daily_rate", ColNum DFloat64 [Some 100; Some 200; Some 300; Some 400]);
       ("age_missing", ColNum DInt64 [Some 0; Some 1; Some 0; Some 0])].
Proof. vm_compute. reflexivity. Qed.
